(** * ManagerX-Handler: the translation handler

    A shallow embedding of [mx_handler/translation_handler.py]: the
    TTL cache ([TranslationCache]), the fallback loader
    ([TranslationHandler.load_messages]), key navigation and placeholder
    substitution ([get], [get_async]), the batch query
    ([get_all_translations]), the validator ([validate_translations]) and
    the maintenance calls ([clear_cache], [get_cache_stats], [settings]).

    Conventions.
    - [datetime] values and [timedelta]s are integers counting
      microseconds (Python's resolution), so [timedelta(minutes=m)] is
      [m * 60000000].
    - [st_mtime] is only ever compared for equality; it is an integer here.
    - Parsed YAML is a [value]; a mapping is an association list with
      string keys, as the annotations [Dict[str, Any]] say.  Floats and
      dates behave like [VInt] in every test the handler makes.
    - Exceptions are explicit: a computation yields [Ret a] or [Exc e],
      and the state reached before the exception is kept.
    - Each cache operation holds the lock of the cache for its whole body
      and the event loop is single-threaded, so an operation is one step.
    - Logging only prints; it is left out.  [get_for_user] and
      [get_for_guild] are [get_async] for a language chosen outside. *)

From stdpp Require Import gmap strings list fin_maps.
From Stdlib Require Import ZArith Ascii String.

Set Warnings "-register-all,-clear-no-such-hyp".

Open Scope string_scope.
Open Scope Z_scope.

(** ** Parsed YAML values *)

Inductive value : Type :=
| VNone
| VBool (b : bool)
| VInt (n : Z)
| VStr (s : string)
| VList (l : list value)
| VDict (d : list (string * value)).

(** A message tree is the content of a mapping. *)
Abbreviation tree := (list (string * value)).

(** Python truthiness, as used by [yaml.safe_load(f) or {}], [if cached:]
    and [if not translations:]. *)
Definition truthy (v : value) : bool :=
  match v with
  | VNone => false
  | VBool b => b
  | VInt n => negb (n =? 0)
  | VStr s => negb (String.eqb s "")
  | VList l => match l with [] => false | _ => true end
  | VDict d => match d with [] => false | _ => true end
  end.

Definition str_truthy (s : string) : bool := negb (String.eqb s "").

(** [d.get(key)]: the first binding of [key], [None] when there is none. *)
Fixpoint dict_get (d : tree) (key : string) : value :=
  match d with
  | [] => VNone
  | (k, v) :: rest => if String.eqb k key then v else dict_get rest key
  end.

(** ** Exceptions and outcomes *)

Inductive exn : Type :=
| KeyError
| AttributeError
| OSError
| YAMLError.

Inductive outcome (A : Type) : Type :=
| Ret (a : A)
| Exc (e : exn).
Arguments Ret {A} a.
Arguments Exc {A} e.

(** ** [class TranslationCache] *)

Module TranslationCache.

Record t : Type := mk {
  _cache : gmap string tree;
  _timestamps : gmap string Z;
  _ttl : Z
}.

Definition timedelta_minutes (minutes : Z) : Z := minutes * 60000000.

(** [__init__] *)
Definition init (ttl_minutes : Z) : t :=
  mk ∅ ∅ (timedelta_minutes ttl_minutes).

Definition update_ttl (ttl_minutes : Z) (c : t) : t :=
  mk (_cache c) (_timestamps c) (timedelta_minutes ttl_minutes).

(** [get]: [now] is the reading of [datetime.now()].  The subscript
    [self._timestamps[key]] raises [KeyError] on a missing key. *)
Definition get (key : string) (now : Z) (c : t) : outcome (option tree) * t :=
  match _cache c !! key with
  | None => (Ret None, c)
  | Some v =>
      match _timestamps c !! key with
      | None => (Exc KeyError, c)
      | Some stamp =>
          if _ttl c <? now - stamp
          then (Ret None, mk (delete key (_cache c)) (delete key (_timestamps c)) (_ttl c))
          else (Ret (Some v), c)
      end
  end.

(** [set]: [now] is the reading of [datetime.now()]. *)
Definition set (key : string) (v : tree) (now : Z) (c : t) : t :=
  mk (<[key := v]> (_cache c)) (<[key := now]> (_timestamps c)) (_ttl c).

(** [clear]: [if key:] tests truthiness, so [None] and the empty string
    both take the [else] branch. *)
Definition clear (key : option string) (c : t) : t :=
  match key with
  | Some k =>
      if str_truthy k
      then mk (delete k (_cache c)) (delete k (_timestamps c)) (_ttl c)
      else mk ∅ ∅ (_ttl c)
  | None => mk ∅ ∅ (_ttl c)
  end.

Record stats : Type := mk_stats {
  entries : nat;
  languages : list string;
  oldest_entry : option Z
}.

(** [min(self._timestamps.values())] *)
Definition min_list (l : list Z) : option Z :=
  match l with
  | [] => None
  | x :: rest => Some (foldr Z.min x rest)
  end.

Definition get_stats (c : t) : stats :=
  mk_stats (size (_cache c))
           (map fst (map_to_list (_cache c)))
           (min_list (map snd (map_to_list (_timestamps c)))).

(** The operations a client can apply to a cache object. *)
Inductive op : Type :=
| OpGet (key : string) (now : Z)
| OpSet (key : string) (v : tree) (now : Z)
| OpClear (key : option string)
| OpUpdateTtl (ttl_minutes : Z).

Definition run (o : op) (c : t) : t :=
  match o with
  | OpGet key now => (get key now c).2
  | OpSet key v now => set key v now c
  | OpClear key => clear key c
  | OpUpdateTtl m => update_ttl m c
  end.

Inductive reachable : t → Prop :=
| reach_init ttl_minutes : reachable (init ttl_minutes)
| reach_step o c : reachable c → reachable (run o c).

End TranslationCache.

(** ** The environment: files, directories, clock *)

(** What [Path.exists()] does on a path: it answers, or lets an
    [OSError] other than "not found" (a permission error) through. *)
Inductive probe : Type :=
| Absent
| Present
| ProbeError.

(** What [open] followed by [yaml.safe_load] does on an existing file. *)
Inductive load_result : Type :=
| LoadYAMLError
| LoadOSError
| Parsed (v : value).

(** One file: [src_mtime] is [stat().st_mtime], [None] when [stat] raises. *)
Record source : Type := mk_source {
  src_exists : probe;
  src_mtime : option Z;
  src_load : load_result
}.

(** One directory, as [exists()] and [glob("*.yaml")] see it: the stems
    of its [*.yaml] entries. *)
Inductive dir_status : Type :=
| DirAbsent
| DirError
| DirEntries (stems : list string).

(** File-system accesses, recorded in the order they are made. *)
Inductive io_event : Type :=
| EvExists (file_path : string)
| EvStat (file_path : string)
| EvRead (file_path : string)
| EvGlob (dir_path : string).

(** ** [class TranslationSettings] (the fields that affect results;
    the logging switches only change what is printed) *)

Record TranslationSettings : Type := mk_settings {
  translation_path : string;
  fallback_languages : list string;
  default_language : string;
  cache_ttl_minutes : Z
}.

Definition default_settings : TranslationSettings :=
  mk_settings "translation/messages" ["en"; "de"] "en" 30.

(** [TranslationSettings.configure] *)
Definition configure (path : option string) (fallback_langs : option (list string))
    (default_lang : option string) (cache_ttl : option Z)
    (s : TranslationSettings) : TranslationSettings :=
  mk_settings
    (default (translation_path s) path)
    (default (fallback_languages s) fallback_langs)
    (default (default_language s) default_lang)
    (default (cache_ttl_minutes s) cache_ttl).

(** ** The state of the program and of its environment

    [_settings], [_cache] and [_file_watchers] are the class attributes of
    [TranslationHandler]; the other fields are the environment.
    [datetime.now()] returns [clock ticks] and advances [ticks]. *)

Record world : Type := mk_world {
  _settings : TranslationSettings;
  _cache : option TranslationCache.t;
  _file_watchers : gmap string Z;
  files : string → source;
  dirs : string → dir_status;
  clock : nat → Z;
  ticks : nat;
  io_log : list io_event
}.

Definition initial_world (files : string → source) (dirs : string → dir_status)
    (clock : nat → Z) : world :=
  mk_world default_settings None ∅ files dirs clock 0 [].

Definition with_cache (c : option TranslationCache.t) (w : world) : world :=
  mk_world (_settings w) c (_file_watchers w) (files w) (dirs w) (clock w) (ticks w) (io_log w).

Definition with_settings (s : TranslationSettings) (w : world) : world :=
  mk_world s (_cache w) (_file_watchers w) (files w) (dirs w) (clock w) (ticks w) (io_log w).

Definition with_file_watchers (fw : gmap string Z) (w : world) : world :=
  mk_world (_settings w) (_cache w) fw (files w) (dirs w) (clock w) (ticks w) (io_log w).

Definition with_event (e : io_event) (w : world) : world :=
  mk_world (_settings w) (_cache w) (_file_watchers w) (files w) (dirs w) (clock w) (ticks w)
           (io_log w ++ [e]).

Definition with_tick (w : world) : world :=
  mk_world (_settings w) (_cache w) (_file_watchers w) (files w) (dirs w) (clock w) (S (ticks w))
           (io_log w).

(** The environment moves on its own between two calls. *)
Definition with_environment (f : string → source) (d : string → dir_status)
    (k : nat → Z) (w : world) : world :=
  mk_world (_settings w) (_cache w) (_file_watchers w) f d k (ticks w) (io_log w).

(** ** A state-and-exception monad *)

Definition M (A : Type) : Type := world → outcome A * world.

#[export] Instance M_ret : MRet M := λ A a w, (Ret a, w).

#[export] Instance M_bind : MBind M := λ A B f m w,
  match m w with
  | (Ret a, w') => f a w'
  | (Exc e, w') => (Exc e, w')
  end.

(** [try: m  except Exception: ...] as a value: the outcome of [m]. *)
Definition attempt {A} (m : M A) : M (outcome A) := λ w,
  let '(r, w') := m w in (Ret r, w').

Definition gets {A} (f : world → A) : M A := λ w, (Ret (f w), w).

Definition modify (f : world → world) : M unit := λ w, (Ret tt, f w).

(** [file_path.exists()] *)
Definition path_exists (p : string) : M bool := λ w,
  let w' := with_event (EvExists p) w in
  match src_exists (files w p) with
  | Absent => (Ret false, w')
  | Present => (Ret true, w')
  | ProbeError => (Exc OSError, w')
  end.

(** [file_path.stat().st_mtime] *)
Definition path_mtime (p : string) : M Z := λ w,
  let w' := with_event (EvStat p) w in
  match src_mtime (files w p) with
  | Some m => (Ret m, w')
  | None => (Exc OSError, w')
  end.

(** [with open(file_path, ...) as f: yaml.safe_load(f)] *)
Definition safe_load (p : string) : M value := λ w,
  let w' := with_event (EvRead p) w in
  match src_load (files w p) with
  | Parsed v => (Ret v, w')
  | LoadYAMLError => (Exc YAMLError, w')
  | LoadOSError => (Exc OSError, w')
  end.

(** ** The handler's use of its cache *)

(** [_ensure_cache] *)
Definition _ensure_cache : M unit := λ w,
  match _cache w with
  | None =>
      (Ret tt, with_cache (Some (TranslationCache.init (cache_ttl_minutes (_settings w)))) w)
  | Some _ => (Ret tt, w)
  end.

(** [await cls._cache.get(key)]; on [cls._cache is None] the attribute
    access raises.  The clock is read only when the key is present. *)
Definition cache_get (key : string) : M (option tree) := λ w,
  match _cache w with
  | None => (Exc AttributeError, w)
  | Some c =>
      let '(r, c') := TranslationCache.get key (clock w (ticks w)) c in
      let w' := with_cache (Some c') w in
      (r, if decide (is_Some (TranslationCache._cache c !! key)) then with_tick w' else w')
  end.

(** [await cls._cache.set(key, value)] *)
Definition cache_set (key : string) (v : tree) : M unit := λ w,
  match _cache w with
  | None => (Exc AttributeError, w)
  | Some c =>
      (Ret tt, with_tick (with_cache (Some (TranslationCache.set key v (clock w (ticks w)) c)) w))
  end.

(** [await cls._cache.clear(key)] *)
Definition cache_clear (key : option string) : M unit := λ w,
  match _cache w with
  | None => (Exc AttributeError, w)
  | Some c => (Ret tt, with_cache (Some (TranslationCache.clear key c)) w)
  end.

(** ** [TranslationHandler.load_messages] *)

(** [cls._settings.translation_path / f"{code}.yaml"] *)
Definition file_path (s : TranslationSettings) (code : string) : string :=
  translation_path s +:+ "/" +:+ code +:+ ".yaml".

(** How the loop body ends for one candidate: [continue] after "File not
    found", [return cached] ("from cache (unchanged)"), [return data], or
    [continue] after an invalid structure or an exception. *)
Inductive candidate_outcome : Type :=
| FileNotFound
| Unchanged (cached : tree)
| Loaded (data : tree)
| Failed.

(** The modification-time check: the cached tree of [code] when the
    recorded time equals [mtime], reload is not forced and [if cached:]
    holds; [None] when the file has to be read. *)
Definition check_unchanged (force_reload : bool) (code : string) (mtime : Z)
    : M (option tree) :=
  watchers ← gets _file_watchers;
  if bool_decide (watchers !! code = Some mtime) && negb force_reload
  then cached ← cache_get code;
       mret (match cached with
             | Some c => if truthy (VDict c) then Some c else None
             | None => None
             end)
  else mret None.

(** Reading, validating and caching: the tree goes under [lang_code], the
    modification time under [code]. *)
Definition read_and_store (lang_code code p : string) (mtime : Z) : M candidate_outcome :=
  v ← safe_load p;
  match (if truthy v then v else VDict []) with
  | VDict data =>
      cache_set lang_code data;;
      modify (λ w, with_file_watchers (<[code := mtime]> (_file_watchers w)) w);;
      mret (Loaded data)
  | _ => mret Failed
  end.

(** The body of the [try] block for the candidate [code] at [p]. *)
Definition try_file (lang_code : string) (force_reload : bool) (code p : string)
    : M candidate_outcome :=
  mtime ← path_mtime p;
  reused ← check_unchanged force_reload code mtime;
  match reused with
  | Some c => mret (Unchanged c)
  | None => read_and_store lang_code code p mtime
  end.

(** One iteration of [for code in (lang_code, *fallback_languages)]. *)
Definition load_candidate (lang_code : string) (force_reload : bool) (code : string)
    : M candidate_outcome :=
  s ← gets _settings;
  found ← path_exists (file_path s code);
  if found : bool
  then r ← attempt (try_file lang_code force_reload code (file_path s code));
       mret (match r with Ret o => o | Exc _ => Failed end)
  else mret FileNotFound.

(** The [for] loop over the remaining [candidates], and what follows it
    when no candidate returns: the empty tree is cached under [lang_code]. *)
Fixpoint load_loop (lang_code : string) (force_reload : bool) (candidates : list string)
    : M tree :=
  match candidates with
  | [] => cache_set lang_code [];; mret []
  | code :: rest =>
      o ← load_candidate lang_code force_reload code;
      match o with
      | Unchanged c => mret c
      | Loaded data => mret data
      | FileNotFound | Failed => load_loop lang_code force_reload rest
      end
  end.

(** [load_messages]: the cache first, unless reload is forced; then the
    requested code and the fallback languages in order. *)
Definition load_messages (lang_code : string) (force_reload : bool) : M tree :=
  _ensure_cache;;
  cached ← (if force_reload then mret None else cache_get lang_code);
  match cached with
  | Some c => mret c
  | None =>
      s ← gets _settings;
      load_loop lang_code force_reload (lang_code :: fallback_languages s)
  end.

(** ** Key paths *)

(** [path: Union[str, List[str]]] *)
Inductive key_path : Type :=
| PathStr (s : string)
| PathList (l : list string).

(** [s.split(".")], with the segment read so far in [cur]. *)
Fixpoint split_dot (s cur : string) : list string :=
  match s with
  | EmptyString => [cur]
  | String c r =>
      if Ascii.eqb c "."
      then cur :: split_dot r ""
      else split_dot r (cur +:+ String c "")
  end.

(** [if isinstance(path, str): path = path.split(".")] *)
Definition parse_path (path : key_path) : list string :=
  match path with
  | PathStr s => split_dot s ""
  | PathList l => l
  end.

(** The navigation loop of [get] and [get_async]: [None] stands for a
    [return default] from inside the loop. *)
Fixpoint navigate (v : value) (path : list string) : option value :=
  match path with
  | [] => Some v
  | key :: rest =>
      match v with
      | VDict d =>
          match dict_get d key with
          | VNone => None
          | v' => navigate v' rest
          end
      | _ => None
      end
  end.

(** ** [value.format] with keyword arguments

    Placeholder values are strings.  Literal text, the escapes [{{] and
    [}}], and fields [{name}] whose name is a keyword are computed here.
    A field that uses an attribute, an index, a conversion, a format
    specification or a character outside ASCII is left to Python's field
    formatter, [format_ext], which receives the template from that field
    on. *)

Inductive fmt_result : Type :=
| FmtOk (s : string)
| FmtKeyError
| FmtError.

Definition fmt_prepend (s : string) (r : fmt_result) : fmt_result :=
  match r with
  | FmtOk s' => FmtOk (s +:+ s')
  | e => e
  end.

Definition is_one_of (c : ascii) (s : string) : bool :=
  existsb (Ascii.eqb c) (list_ascii_of_string s).

Definition is_digit (c : ascii) : bool :=
  ((48 <=? N_of_ascii c) && (N_of_ascii c <=? 57))%N.

(** A character that keeps a field a plain name. *)
Definition field_name_char (c : ascii) : bool :=
  (N_of_ascii c <? 128)%N && negb (is_one_of c "{}[].:!").

(** [{}] and [{0}] are positional; every other plain name is a keyword. *)
Definition keyword_name (name : string) : bool :=
  str_truthy name && negb (forallb is_digit (list_ascii_of_string name)).

Section Formatting.

Variable format_ext : string → gmap string string → fmt_result.

(** [field] is [None] in literal text and [Some name] inside a field
    whose name so far is [name]. *)
Fixpoint format_scan (s : string) (field : option string)
    (kwargs : gmap string string) : fmt_result :=
  match s, field with
  | EmptyString, None => FmtOk ""
  | EmptyString, Some _ => FmtError
  | String c r, None =>
      if Ascii.eqb c "{" then
        match r with
        | String c' r' =>
            if Ascii.eqb c' "{"
            then fmt_prepend "{" (format_scan r' None kwargs)
            else format_scan r (Some "") kwargs
        | EmptyString => FmtError
        end
      else if Ascii.eqb c "}" then
        match r with
        | String c' r' =>
            if Ascii.eqb c' "}"
            then fmt_prepend "}" (format_scan r' None kwargs)
            else FmtError
        | EmptyString => FmtError
        end
      else fmt_prepend (String c "") (format_scan r None kwargs)
  | String c r, Some name =>
      if Ascii.eqb c "}" then
        if keyword_name name then
          match kwargs !! name with
          | Some v => fmt_prepend v (format_scan r None kwargs)
          | None => FmtKeyError
          end
        else FmtError
      else if field_name_char c
      then format_scan r (Some (name +:+ String c "")) kwargs
      else format_ext ("{" +:+ name +:+ String c r) kwargs
  end.

Definition str_format (template : string) (kwargs : gmap string string) : fmt_result :=
  format_scan template None kwargs.

(** ** [TranslationHandler.get] and [get_async] *)

(** The [try] block at the end of [get]. *)
Definition format_or_template (template : string) (placeholders : gmap string string)
    : string :=
  match str_format template placeholders with
  | FmtOk s => s
  | FmtKeyError => template
  | FmtError => template
  end.

(** The [try] block at the end of [get_async]: one handler. *)
Definition format_or_template_async (template : string)
    (placeholders : gmap string string) : string :=
  match str_format template placeholders with
  | FmtOk s => s
  | _ => template
  end.

(** [get]: the event loop runs [load_messages(lang_code)] to completion,
    then the tree is navigated and the string formatted. *)
Definition get (lang_code : string) (path : key_path) (default : string)
    (placeholders : gmap string string) : M string :=
  messages ← load_messages lang_code false;
  mret (match navigate (VDict messages) (parse_path path) with
        | None => default
        | Some (VStr s) => format_or_template s placeholders
        | Some _ => default
        end).

(** [get_async]: the same steps, awaited. *)
Definition get_async (lang_code : string) (path : key_path) (default : string)
    (placeholders : gmap string string) : M string :=
  messages ← load_messages lang_code false;
  mret (match navigate (VDict messages) (parse_path path) with
        | None => default
        | Some (VStr s) => format_or_template_async s placeholders
        | Some _ => default
        end).

(** ** [get_available_languages] *)



(** [translation_path.exists()] then [glob("*.yaml")] *)
Definition list_dir (p : string) : M (option (list string)) := λ w,
  let w' := with_event (EvGlob p) w in
  match dirs w p with
  | DirAbsent => (Ret None, w')
  | DirError => (Exc OSError, w')
  | DirEntries stems => (Ret (Some stems), w')
  end.


(** ** [get_all_translations] *)



(** ** [validate_translations] *)

(** [f"{prefix}.{k}" if prefix else k] *)
Definition join_key (prefix k : string) : string :=
  if str_truthy prefix then prefix +:+ "." +:+ k else k.

(** What one item [(k, v)] adds to [keys], given its [full_key]: the keys
    of the nested mapping, or [full_key] itself. *)
Fixpoint keys_under (v : value) (full_key : string) : gset string :=
  match v with
  | VDict d =>
      (fix items (l : tree) : gset string :=
         match l with
         | [] => ∅
         | (k, v') :: rest => keys_under v' (join_key full_key k) ∪ items rest
         end) d
  | _ => {[ full_key ]}
  end.

(** The local function [get_all_keys(d, prefix)]. *)
Definition get_all_keys (d : tree) (prefix : string) : gset string :=
  keys_under (VDict d) prefix.

(** The messages of [results["errors"]] and [results["warnings"]]. *)
Inductive validation_error : Type :=
| NoTranslationsFound (lang_code : string)
| ValidationError (e : exn).

Inductive validation_warning : Type :=
| KeysMissing (count : nat) (default_lang : string).

Record validation : Type := mk_validation {
  valid : bool;
  errors : list validation_error;
  warnings : list validation_warning;
  missing_keys : list string;
  extra_keys : list string
}.

(** The body of the [try] block. *)
Definition validate_body (lang_code : string) : M validation :=
  translations ← load_messages lang_code true;
  if truthy (VDict translations) then
    s ← gets _settings;
    if bool_decide (lang_code ≠ default_language s) then
      default_trans ← load_messages (default_language s) false;
      let default_keys := get_all_keys default_trans "" in
      let current_keys := get_all_keys translations "" in
      let missing : list string := elements (default_keys ∖ current_keys) in
      let extra : list string := elements (current_keys ∖ default_keys) in
      mret (mk_validation true []
              (match missing with
               | [] => []
               | _ => [KeysMissing (List.length missing) (default_language s)]
               end)
              missing extra)
    else mret (mk_validation true [] [] [] [])
  else mret (mk_validation false [NoTranslationsFound lang_code] [] [] []).

Definition validate_translations (lang_code : string) : M validation :=
  r ← attempt (validate_body lang_code);
  mret (match r with
        | Ret v => v
        | Exc e => mk_validation false [ValidationError e] [] [] []
        end).

(** ** [clear_cache], [get_cache_stats], [settings] *)

Definition clear_cache (lang_code : option string) : M unit :=
  _ensure_cache;;
  cache_clear lang_code;;
  modify (λ w, with_file_watchers
                 (match lang_code with
                  | Some k => if str_truthy k then delete k (_file_watchers w) else ∅
                  | None => ∅
                  end) w).

Definition cache_stats : M TranslationCache.stats := λ w,
  match _cache w with
  | None => (Exc AttributeError, w)
  | Some c => (Ret (TranslationCache.get_stats c), w)
  end.

Definition get_cache_stats : M TranslationCache.stats :=
  _ensure_cache;; cache_stats.

(** [TranslationHandler.settings]: the [elif] branch needs
    [cache_ttl is not None], which the [if] has already taken. *)
Definition settings (path : option string) (fallback_langs : option (list string))
    (default_lang : option string) (cache_ttl : option Z) : M unit :=
  modify (λ w, with_settings (configure path fallback_langs default_lang cache_ttl (_settings w)) w);;
  modify (λ w, match _cache w, cache_ttl with
               | Some _, None => w
               | _, _ =>
                   with_cache
                     (Some (TranslationCache.init
                              (default (cache_ttl_minutes (_settings w)) cache_ttl))) w
               end).

(** ** Calls and reachable states *)





End Formatting.

(** * Specification vocabulary *)

(** The two maps of a cache object have the same keys. *)
Definition in_sync (c : TranslationCache.t) : Prop :=
  dom (TranslationCache._cache c) = dom (TranslationCache._timestamps c).

(** The languages that have an entry in the handler's cache. *)
Definition cached_langs (w : world) : gset string :=
  match _cache w with
  | Some c => dom (TranslationCache._cache c)
  | None => ∅
  end.

(** The code [avoid] has no entry in the handler's cache. *)
Definition not_cached (avoid : string) (w : world) : Prop := avoid ∉ cached_langs w.

(** [m] keeps the property [I] of the state, however it ends. *)
Definition preserves {A} (I : world → Prop) (m : M A) : Prop :=
  ∀ w, I w → I (m w).2.




(** The keyword names of the plain fields of a template, up to its first
    malformed or non-plain field. *)
Fixpoint scan_names (s : string) (field : option string) : list string :=
  match s, field with
  | EmptyString, _ => []
  | String c r, None =>
      if Ascii.eqb c "{" then
        match r with
        | String c' r' =>
            if Ascii.eqb c' "{" then scan_names r' None else scan_names r (Some "")
        | EmptyString => []
        end
      else if Ascii.eqb c "}" then
        match r with
        | String c' r' => if Ascii.eqb c' "}" then scan_names r' None else []
        | EmptyString => []
        end
      else scan_names r None
  | String c r, Some name =>
      if Ascii.eqb c "}" then
        if keyword_name name then name :: scan_names r None else []
      else if field_name_char c
      then scan_names r (Some (name +:+ String c ""))
      else []
  end.

Definition referenced_names (template : string) : list string :=
  scan_names template None.

(** The template is well formed and all its fields are plain keyword
    fields. *)
Fixpoint scan_plain (s : string) (field : option string) : bool :=
  match s, field with
  | EmptyString, None => true
  | EmptyString, Some _ => false
  | String c r, None =>
      if Ascii.eqb c "{" then
        match r with
        | String c' r' =>
            if Ascii.eqb c' "{" then scan_plain r' None else scan_plain r (Some "")
        | EmptyString => false
        end
      else if Ascii.eqb c "}" then
        match r with
        | String c' r' => if Ascii.eqb c' "}" then scan_plain r' None else false
        | EmptyString => false
        end
      else scan_plain r None
  | String c r, Some name =>
      if Ascii.eqb c "}" then keyword_name name && scan_plain r None
      else field_name_char c && scan_plain r (Some (name +:+ String c ""))
  end.

Definition plain_template (template : string) : bool := scan_plain template None.

(** The state after further file-system accesses. *)
Definition with_events (evs : list io_event) (w : world) : world :=
  mk_world (_settings w) (_cache w) (_file_watchers w) (files w) (dirs w) (clock w) (ticks w)
           (io_log w ++ evs).

(** The source of [code], under the current settings. *)
Definition source_of (w : world) (code : string) : source :=
  files w (file_path (_settings w) code).

(** The modification-time check has nothing to reuse for [code]: reload is
    forced, or [code] has no cache entry, or the recorded modification
    time is not that of its source. *)
Definition reuse_blocked (w : world) (force_reload : bool) (code : string) : Prop :=
  force_reload = true ∨ code ∉ cached_langs w ∨
  _file_watchers w !! code ≠ src_mtime (source_of w code).

(** The cache check of [load_messages] will not find an unexpired entry
    for [lang]. *)
Definition cache_miss (w : world) (lang : string) : Prop :=
  match _cache w with
  | None => True
  | Some c =>
      match TranslationCache._cache c !! lang with
      | None => True
      | Some _ =>
          ∃ stamp, TranslationCache._timestamps c !! lang = Some stamp ∧
                   TranslationCache._ttl c < clock w (ticks w) - stamp
      end
  end.

(** The cache holds the tree [v] for [lang], stamped [stamp]. *)
Definition holds_entry (w : world) (lang : string) (v : tree) (stamp : Z) : Prop :=
  ∃ c, _cache w = Some c ∧
       TranslationCache._cache c !! lang = Some v ∧
       TranslationCache._timestamps c !! lang = Some stamp.

(** The cache holds the tree [v] for [lang], and the next reading of the
    clock is within the TTL window of that entry. *)
Definition fresh_entry (w : world) (lang : string) (v : tree) : Prop :=
  ∃ c stamp, _cache w = Some c ∧
             TranslationCache._cache c !! lang = Some v ∧
             TranslationCache._timestamps c !! lang = Some stamp ∧
             clock w (ticks w) ≤ stamp + TranslationCache._ttl c.

(** A source that exists and parses to the mapping [data]
    ([yaml.safe_load(f) or {}] turns an empty document into [{}]). *)
Definition usable (src : source) (mtime : Z) (data : tree) : Prop :=
  src_exists src = Present ∧ src_mtime src = Some mtime ∧
  ∃ v, src_load src = Parsed v ∧ (if truthy v then v else VDict []) = VDict data.

(** A source that is absent, or invalid: it cannot be read or parsed, or
    its root is not a mapping. *)
Definition unusable (src : source) : Prop :=
  src_exists src = Absent ∨
  (src_exists src = Present ∧
   (src_mtime src = None ∨ src_load src = LoadYAMLError ∨ src_load src = LoadOSError ∨
    ∃ v, src_load src = Parsed v ∧ truthy v = true ∧ ∀ d, v ≠ VDict d)).

(** The candidates the fallback loop tries from the state [w], each with
    the way its iteration ends; the loop stops at the first [return] or at
    an exception that escapes. *)
Fixpoint loop_trace (lang_code : string) (force_reload : bool) (candidates : list string)
    (w : world) : list (string * outcome candidate_outcome) :=
  match candidates with
  | [] => []
  | code :: rest =>
      let '(r, w') := load_candidate lang_code force_reload code w in
      (code, r) ::
        match r with
        | Ret FileNotFound | Ret Failed => loop_trace lang_code force_reload rest w'
        | _ => []
        end
  end.

(** The candidates one call of [load_messages] tries: none when the
    requested code is served from the cache. *)
Definition load_trace (lang_code : string) (force_reload : bool) (w : world)
    : list (string * outcome candidate_outcome) :=
  let '(_, w0) := _ensure_cache w in
  let '(cached, w1) := (if force_reload then mret None else cache_get lang_code) w0 in
  match cached with
  | Ret None =>
      loop_trace lang_code force_reload (lang_code :: fallback_languages (_settings w1)) w1
  | _ => []
  end.



(** The full key paths of a tree: the paths that lead, through nested
    mappings, to a value that is not a mapping. *)
Fixpoint leaf_paths (v : value) : list (list string) :=
  match v with
  | VDict d =>
      (fix items (l : tree) : list (list string) :=
         match l with
         | [] => []
         | (k, v') :: rest => (map (cons k) (leaf_paths v') ++ items rest)%list
         end) d
  | _ => [[]]
  end.

(** A path written with dots between its segments. *)
Definition dot_join (path : list string) : string := String.concat "." path.

(** The set of dot-joined full key paths of a tree. *)
Definition flatten_paths (d : tree) : gset string :=
  list_to_set (map dot_join (leaf_paths (VDict d))).

(** What follows the first segment in a dot-joined path. *)
Fixpoint dot_suffix (path : list string) : string :=
  match path with
  | [] => ""
  | k :: rest => "." +:+ k +:+ dot_suffix rest
  end.

(** ** Proof automation *)

Ltac unfold_monad :=
  unfold mbind, M_bind, mret, M_ret, gets, modify, attempt in *.

(** ** Sample environments *)

Definition no_source : source := mk_source Absent None LoadOSError.

Definition sample_tree : tree :=
  [("greeting", VStr "Hello, {name}!");
   ("a", VDict [("b", VStr "1"); ("c", VStr "2")])].

(** Only [en.yaml] exists. *)
Definition files_en (p : string) : source :=
  if String.eqb p "translation/messages/en.yaml"
  then mk_source Present (Some 1700000000) (Parsed (VDict sample_tree))
  else no_source.

(** Only [de.yaml] exists. *)
Definition files_de (p : string) : source :=
  if String.eqb p "translation/messages/de.yaml"
  then mk_source Present (Some 1700000000) (Parsed (VDict sample_tree))
  else no_source.

Definition no_files (p : string) : source := no_source.

Definition no_dirs (p : string) : dir_status := DirAbsent.

Definition frozen_clock (n : nat) : Z := 0.

(** The formatter of non-plain fields is not needed by the samples. *)
Definition no_ext (s : string) (kwargs : gmap string string) : fmt_result := FmtError.

(** [en.yaml] exists; probing [xx.yaml] is not permitted. *)
Definition files_locked (p : string) : source :=
  if String.eqb p "translation/messages/xx.yaml"
  then mk_source ProbeError None LoadOSError
  else files_en p.

(** [de.yaml] maps the empty key to {b: "1"}, and [en.yaml] is
    {b: "1"}. *)
Definition files_empty_key (p : string) : source :=
  if String.eqb p "translation/messages/de.yaml"
  then mk_source Present (Some 1700000000) (Parsed (VDict [("", VDict [("b", VStr "1")])]))
  else if String.eqb p "translation/messages/en.yaml"
  then mk_source Present (Some 1700000000) (Parsed (VDict [("b", VStr "1")]))
  else no_source.

(** [de.yaml] is {a: {b: "1"}} and [en.yaml] is {a: {b: "1", c: "2"}}. *)
Definition files_missing_key (p : string) : source :=
  if String.eqb p "translation/messages/de.yaml"
  then mk_source Present (Some 1700000000) (Parsed (VDict [("a", VDict [("b", VStr "1")])]))
  else if String.eqb p "translation/messages/en.yaml"
  then mk_source Present (Some 1700000000)
         (Parsed (VDict [("a", VDict [("b", VStr "1"); ("c", VStr "2")])]))
  else no_source.

(** * Further parts of the handler *)

(** ** [get_for_user] and [get_for_guild]

    The bot is seen through the one attribute the handler reads.  A
    database lookup returns a language code or [None], or it raises;
    it does not touch the state of the handler. *)

Record SettingsDB : Type := mk_settings_db {
  get_user_language : Z → outcome (option string);
  get_guild_language : Z → outcome (option string)
}.

(** [settings_db] is [None] when [hasattr(bot, 'settings_db')] is false. *)
Record Bot : Type := mk_bot {
  settings_db : option SettingsDB
}.

(** The [try] block of [get_for_user] and [get_for_guild], given what the
    lookup gave: [if user_lang: lang = user_lang], and any exception leaves
    [lang] as it was. *)
Definition preferred_language (found : outcome (option string)) (lang : string) : string :=
  match found with
  | Ret (Some user_lang) => if str_truthy user_lang then user_lang else lang
  | Ret None => lang
  | Exc _ => lang
  end.

Section Preferences.

Variable format_ext : string → gmap string string → fmt_result.

Definition get_for_user (bot : Bot) (user_id : Z) (path : key_path) (default : string)
    (placeholders : gmap string string) : M string :=
  s ← gets _settings;
  get_async format_ext
    (match settings_db bot with
     | Some db => preferred_language (get_user_language db user_id) (default_language s)
     | None => default_language s
     end) path default placeholders.

Definition get_for_guild (bot : Bot) (guild_id : Z) (path : key_path) (default : string)
    (placeholders : gmap string string) : M string :=
  s ← gets _settings;
  get_async format_ext
    (match settings_db bot with
     | Some db => preferred_language (get_guild_language db guild_id) (default_language s)
     | None => default_language s
     end) path default placeholders.


End Preferences.

(** ** Logging: [TranslationSettings._log] and its level filters *)

(** The logging switches of [TranslationSettings], with their class
    defaults. *)
Record LogSettings : Type := mk_log_settings {
  logging_enabled : bool;
  colored_logging : bool;
  log_level : string;
  _configured : bool
}.

Definition default_log_settings : LogSettings :=
  mk_log_settings true true "INFO" false.

(** The constants of colorama that the handler uses. *)
Record Colorama : Type := mk_colorama {
  ansi_RED : string;
  ansi_GREEN : string;
  ansi_YELLOW : string;
  ansi_CYAN : string;
  ansi_RESET_ALL : string;
  ansi_BRIGHT : string
}.

(** The logger method that [getattr(logger, level.lower(), logger.info)]
    selects for the four levels the handler passes. *)
Inductive log_method : Type :=
| LogDebug
| LogInfo
| LogWarning
| LogError.

Section Logging.

(** What [from colorama import ...] gave: the constants, or [None] on
    [ImportError], where the fallback classes hold empty strings. *)
Variable colorama : option Colorama.

(** [str.upper] *)
Variable upper : string → string.

Definition COLORAMA_AVAILABLE : bool :=
  match colorama with Some _ => true | None => false end.

Definition Fore_RED : string := from_option ansi_RED "" colorama.
Definition Fore_GREEN : string := from_option ansi_GREEN "" colorama.
Definition Fore_YELLOW : string := from_option ansi_YELLOW "" colorama.
Definition Fore_CYAN : string := from_option ansi_CYAN "" colorama.
Definition Style_RESET_ALL : string := from_option ansi_RESET_ALL "" colorama.
Definition Style_BRIGHT : string := from_option ansi_BRIGHT "" colorama.

(** The logging part of [TranslationSettings.configure]. *)
Definition configure_logging (logging colored : bool) (level : string)
    (s : LogSettings) : LogSettings :=
  mk_log_settings logging (colored && COLORAMA_AVAILABLE) (upper level) true.

(** [_log]: the records emitted, each being the logger method called and
    the line, which is also printed. *)
Definition _log (s : LogSettings) (level : log_method) (message color : string)
    : list (log_method * string) :=
  if logging_enabled s then
    let prefix :=
      if colored_logging s
      then color +:+ "[TRANSLATION]" +:+ Style_RESET_ALL
      else "[TRANSLATION]" in
    [(level, prefix +:+ " " +:+ message)]
  else [].

Definition _log_debug (s : LogSettings) (message : string) : list (log_method * string) :=
  if String.eqb (log_level s) "DEBUG"
  then _log s LogDebug message Fore_CYAN
  else [].

Definition _log_info (s : LogSettings) (message : string) : list (log_method * string) :=
  if existsb (String.eqb (log_level s)) ["DEBUG"; "INFO"]
  then _log s LogInfo message Fore_GREEN
  else [].

Definition _log_warning (s : LogSettings) (message : string) : list (log_method * string) :=
  if existsb (String.eqb (log_level s)) ["DEBUG"; "INFO"; "WARNING"]
  then _log s LogWarning message Fore_YELLOW
  else [].

Definition _log_error (s : LogSettings) (message : string) : list (log_method * string) :=
  _log s LogError message Fore_RED.

Definition _log_success (s : LogSettings) (message : string) : list (log_method * string) :=
  if existsb (String.eqb (log_level s)) ["DEBUG"; "INFO"]
  then _log s LogInfo message (if colored_logging s then Fore_GREEN +:+ Style_BRIGHT else "")
  else [].

End Logging.

(** ** Further specification vocabulary *)

(** The cache of the handler, when there is one, has its two maps in
    sync and the TTL of the settings. *)
Definition coherent (w : world) : Prop :=
  ∀ c, _cache w = Some c →
       in_sync c ∧
       TranslationCache._ttl c
         = TranslationCache.timedelta_minutes (cache_ttl_minutes (_settings w)).

(** The path a file-system access is made on. *)
Definition event_path (e : io_event) : string :=
  match e with
  | EvExists p | EvStat p | EvRead p | EvGlob p => p
  end.

(** A segment without a dot. *)
Definition no_dot (s : string) : Prop := "."%char ∉ list_ascii_of_string s.

(** A template without braces. *)
Definition no_brace (s : string) : Prop :=
  ("{"%char ∉ list_ascii_of_string s) ∧ ("}"%char ∉ list_ascii_of_string s).


(** ** Further sample environments *)

(** A clock whose consecutive readings are 1801 seconds apart, more than
    the default TTL of 30 minutes. *)
Definition slow_clock (n : nat) : Z := Z.of_nat n * 1801000000.

(** * The update checker: versions and the update decision

    A shallow embedding of the version comparison of
    [mx_handler/update_checker.py] ([VersionInfo]) and of
    [VersionChecker.check_for_updates].  The two network calls and the
    age test of the cached result are inputs: [latest] is what
    [fetch_latest_version] returns when it is called, and logging is left
    out as in the translation handler. *)

Module UpdateChecker.

(** [class ReleaseType] *)
Inductive ReleaseType : Type :=
| STABLE
| BETA
| ALPHA
| DEV
| UNKNOWN.

Definition release_type_eqb (a b : ReleaseType) : bool :=
  match a, b with
  | STABLE, STABLE | BETA, BETA | ALPHA, ALPHA | DEV, DEV | UNKNOWN, UNKNOWN => true
  | _, _ => false
  end.

(** [class VersionInfo], as constructed: [raw] is never empty after
    [__init__], and [str(v)] is [raw]. *)
Record VersionInfo : Type := mk_version {
  major : Z;
  minor : Z;
  patch : Z;
  release_type : ReleaseType;
  raw : string
}.

Definition core (v : VersionInfo) : Z * Z * Z := (major v, minor v, patch v).

(** The order of Python on tuples of three integers: [a < b]. *)
Definition tuple_lt (a b : Z * Z * Z) : bool :=
  let '(a1, a2, a3) := a in
  let '(b1, b2, b3) := b in
  (a1 <? b1) || ((a1 =? b1) && ((a2 <? b2) || ((a2 =? b2) && (a3 <? b3)))).

Definition tuple_eqb (a b : Z * Z * Z) : bool :=
  let '(a1, a2, a3) := a in
  let '(b1, b2, b3) := b in
  (a1 =? b1) && (a2 =? b2) && (a3 =? b3).

(** [__gt__]: [self.core > other.core] *)
Definition gt (self other : VersionInfo) : bool := tuple_lt (core other) (core self).

(** [__lt__]: [self.core < other.core] *)
Definition lt (self other : VersionInfo) : bool := tuple_lt (core self) (core other).

(** [__eq__] *)
Definition eq (self other : VersionInfo) : bool :=
  tuple_eqb (core self) (core other)
  && release_type_eqb (release_type self) (release_type other).

Definition is_stable (v : VersionInfo) : bool := release_type_eqb (release_type v) STABLE.

Definition is_prerelease (v : VersionInfo) : bool :=
  existsb (release_type_eqb (release_type v)) [ALPHA; BETA; DEV].

(** The dictionary [check_for_updates] returns: the short one of a failed
    fetch, or the full one. *)
Inductive check_result : Type :=
| CheckFailed (current_version : string)
| CheckDone (update_available : bool) (current_version latest_version : string)
    (is_prerelease is_dev_build : bool) (release_notes : option string)
    (download_url : string).

(** The attributes of a [VersionChecker] object. *)
Record VersionChecker : Type := mk_checker {
  current_version : VersionInfo;
  _last_check : option Z;
  _cached_result : option check_result
}.

Section Network.

(** [(now - last_check).total_seconds() / 3600 < check_interval] *)
Variable within_interval : Z → Z → Z → bool.

(** [fetch_release_notes], by the version it is asked for. *)
Variable fetch_release_notes : string → option string.

(** The part of [check_for_updates] after a successful fetch: the
    comparison, the release notes and the dictionary. *)
Definition compare_versions (github_repo : string) (self : VersionChecker)
    (latest : VersionInfo) : check_result :=
  let current := current_version self in
  let '(update_available, is_dev_build, prerelease) :=
    if gt current latest then (false, true, false)
    else if lt current latest then (true, false, false)
    else if is_prerelease current && is_stable latest then (false, false, true)
    else (false, false, false) in
  CheckDone update_available (raw current) (raw latest) prerelease is_dev_build
    (if update_available then fetch_release_notes (raw latest) else None)
    github_repo.

(** [check_for_updates]: [now] is the clock reading of the age test,
    [stored_at] the one taken when the result is cached. *)
Definition check_for_updates (github_repo : string) (check_interval : Z) (force : bool)
    (now stored_at : Z) (latest : option VersionInfo) (self : VersionChecker)
    : check_result * VersionChecker :=
  let fetch :=
    match latest with
    | None => (CheckFailed (raw (current_version self)), self)
    | Some l =>
        let result := compare_versions github_repo self l in
        (result, mk_checker (current_version self) (Some stored_at) (Some result))
    end in
  if force then fetch
  else
    match _cached_result self, _last_check self with
    | Some cached, Some last_check =>
        if within_interval now last_check check_interval then (cached, self) else fetch
    | _, _ => fetch
    end.

End Network.

End UpdateChecker.
(** * Properties *)

(** ** The cache object *)

Lemma min_list_None (l : list Z) : TranslationCache.min_list l = None ↔ l = [].
Proof. destruct l; simpl; split; intros; congruence. Qed.

Lemma foldr_min_le (x : Z) (l : list Z) :
  foldr Z.min x l ≤ x ∧ ∀ y, y ∈ l → foldr Z.min x l ≤ y.
Proof.
  induction l as [|a l [IH1 IH2]]; simpl.
  - split; [lia | intros y Hy; inversion Hy].
  - split; [lia |].
    intros y Hy. apply elem_of_cons in Hy as [-> | Hy]; [lia |].
    specialize (IH2 y Hy). lia.
Qed.

Lemma foldr_min_elem (x : Z) (l : list Z) : foldr Z.min x l ∈ x :: l.
Proof.
  induction l as [|a l IH]; simpl.
  - apply list_elem_of_here.
  - destruct (Z.min_spec a (foldr Z.min x l)) as [[_ ->] | [_ ->]].
    + apply list_elem_of_further, list_elem_of_here.
    + apply elem_of_cons in IH as [-> | IH].
      * apply list_elem_of_here.
      * do 2 apply list_elem_of_further. exact IH.
Qed.

Lemma min_list_Some (l : list Z) (m : Z) :
  TranslationCache.min_list l = Some m → m ∈ l ∧ ∀ y, y ∈ l → m ≤ y.
Proof.
  destruct l as [|x l]; simpl; [discriminate |].
  intros [= <-]. split; [apply foldr_min_elem |].
  intros y Hy. destruct (foldr_min_le x l) as [H1 H2].
  apply elem_of_cons in Hy as [-> | Hy]; [exact H1 | exact (H2 y Hy)].
Qed.

Lemma in_sync_init (m : Z) : in_sync (TranslationCache.init m).
Proof. unfold in_sync; simpl. by rewrite !dom_empty_L. Qed.

Lemma in_sync_get (key : string) (now : Z) (c : TranslationCache.t) :
  in_sync c → in_sync (TranslationCache.get key now c).2.
Proof.
  unfold in_sync, TranslationCache.get. intros H.
  destruct (TranslationCache._cache c !! key); [|done].
  destruct (TranslationCache._timestamps c !! key); [|done].
  case_match; simpl; [|done].
  rewrite !dom_delete_L. by rewrite H.
Qed.

Lemma in_sync_set (key : string) (v : tree) (now : Z) (c : TranslationCache.t) :
  in_sync c → in_sync (TranslationCache.set key v now c).
Proof. unfold in_sync; simpl. intros H. rewrite !dom_insert_L. by rewrite H. Qed.

Lemma in_sync_clear (key : option string) (c : TranslationCache.t) :
  in_sync c → in_sync (TranslationCache.clear key c).
Proof.
  unfold in_sync, TranslationCache.clear. intros H.
  destruct key as [k|]; [destruct (str_truthy k)|]; simpl;
    rewrite ?dom_delete_L, ?dom_empty_L; by rewrite ?H.
Qed.

Lemma in_sync_run (o : TranslationCache.op) (c : TranslationCache.t) :
  in_sync c → in_sync (TranslationCache.run o c).
Proof.
  destruct o; simpl; auto using in_sync_get, in_sync_set, in_sync_clear.
Qed.

Lemma in_sync_reachable (c : TranslationCache.t) :
  TranslationCache.reachable c → in_sync c.
Proof. induction 1; auto using in_sync_init, in_sync_run. Qed.

Lemma in_sync_get_no_KeyError (key : string) (now : Z) (c : TranslationCache.t) :
  in_sync c → (TranslationCache.get key now c).1 ≠ Exc KeyError.
Proof.
  unfold in_sync, TranslationCache.get. intros H.
  destruct (TranslationCache._cache c !! key) eqn:Hc; [|done].
  destruct (TranslationCache._timestamps c !! key) eqn:Ht.
  - by case_match.
  - apply not_elem_of_dom in Ht. rewrite <- H in Ht.
    apply not_elem_of_dom in Ht. congruence.
Qed.

Lemma languages_spec (c : TranslationCache.t) (k : string) :
  k ∈ TranslationCache.languages (TranslationCache.get_stats c)
  ↔ k ∈ dom (TranslationCache._cache c).
Proof.
  simpl. rewrite list_elem_of_fmap, elem_of_dom. split.
  - intros [[k' v] [-> H]]. apply elem_of_map_to_list in H. by exists v.
  - intros [v H]. exists (k, v). split; [done | by apply elem_of_map_to_list].
Qed.

(** C10: in every state of a cache object reachable by [get], [set],
    [clear] (and [update_ttl]), the tree map and the timestamp map have the
    same keys, so [get] never fails on the timestamp subscript and the three
    fields of [get_stats] agree: the count is the length of the language
    list, the languages are the stamped keys, the oldest stamp is missing
    exactly when there is no entry, and otherwise it is the stamp of a
    listed language and a lower bound of the stamps of all of them. *)
Theorem cache_maps_in_sync (c : TranslationCache.t) :
  TranslationCache.reachable c →
  dom (TranslationCache._cache c) = dom (TranslationCache._timestamps c) ∧
  (∀ key now, (TranslationCache.get key now c).1 ≠ Exc KeyError) ∧
  let s := TranslationCache.get_stats c in
  TranslationCache.entries s = List.length (TranslationCache.languages s) ∧
  (∀ k, k ∈ TranslationCache.languages s ↔ is_Some (TranslationCache._timestamps c !! k)) ∧
  (TranslationCache.oldest_entry s = None ↔ TranslationCache.entries s = 0%nat) ∧
  (∀ m, TranslationCache.oldest_entry s = Some m →
     (∃ k, k ∈ TranslationCache.languages s ∧ TranslationCache._timestamps c !! k = Some m) ∧
     (∀ k, k ∈ TranslationCache.languages s →
        ∃ stamp, TranslationCache._timestamps c !! k = Some stamp ∧ m ≤ stamp)).
Proof.
  intros Hr. pose proof (in_sync_reachable c Hr) as Hs.
  split; [exact Hs |]. split; [intros; by apply in_sync_get_no_KeyError |].
  intros s. split; [|split; [|split]].
  - subst s; simpl. by rewrite length_map, length_map_to_list.
  - intros k. subst s. rewrite languages_spec, Hs. apply elem_of_dom.
  - subst s; simpl. rewrite min_list_None, map_size_empty_iff.
    rewrite <- (dom_empty_iff_L (TranslationCache._cache c)), Hs, dom_empty_iff_L.
    rewrite <- map_to_list_empty_iff.
    destruct (map_to_list (TranslationCache._timestamps c)); simpl; split; congruence.
  - intros m Hm. subst s; simpl in Hm.
    apply min_list_Some in Hm as [Hin Hle]. split.
    + apply list_elem_of_fmap in Hin as [[k stamp] [-> Hk]].
      apply elem_of_map_to_list in Hk. exists k. split; [|done].
      apply languages_spec. rewrite Hs. apply elem_of_dom. by exists stamp.
    + intros k Hk. apply languages_spec in Hk. rewrite Hs in Hk.
      apply elem_of_dom in Hk as [stamp Hk]. exists stamp. split; [done |].
      apply Hle. apply list_elem_of_fmap. exists (k, stamp).
      split; [done | by apply elem_of_map_to_list].
Qed.

Lemma cache_maps_in_sync_witness :
  let c := TranslationCache.run (TranslationCache.OpGet "de" 9)
             (TranslationCache.run (TranslationCache.OpSet "en" [("k", VStr "v")] 5)
                (TranslationCache.init 30)) in
  TranslationCache.reachable c ∧
  dom (TranslationCache._cache c) = dom (TranslationCache._timestamps c).
Proof.
  intros c.
  assert (H : TranslationCache.reachable c)
    by (do 2 apply TranslationCache.reach_step; apply TranslationCache.reach_init).
  split; [exact H | exact (proj1 (cache_maps_in_sync c H))].
Defined.

Lemma cache_get_entry (key : string) (v : tree) (stamp now : Z) (c : TranslationCache.t) :
  TranslationCache._cache c !! key = Some v →
  TranslationCache._timestamps c !! key = Some stamp →
  TranslationCache.get key now c =
    if TranslationCache._ttl c <? now - stamp
    then (Ret None,
          TranslationCache.mk (delete key (TranslationCache._cache c))
            (delete key (TranslationCache._timestamps c)) (TranslationCache._ttl c))
    else (Ret (Some v), c).
Proof. unfold TranslationCache.get. by intros -> ->. Qed.

(** C1, as the code has it: an entry inserted at time [t] under the
    TTL [d] is returned by every [get] up to and including the instant
    [t + d]; a [get] strictly after [t + d] returns [None] and removes the
    entry from both maps. *)
Theorem cache_ttl_expiry (c : TranslationCache.t) (key : string) (v : tree) (t now : Z) :
  let c1 := TranslationCache.set key v t c in
  let d := TranslationCache._ttl c1 in
  (now ≤ t + d → TranslationCache.get key now c1 = (Ret (Some v), c1)) ∧
  (t + d < now →
     (TranslationCache.get key now c1).1 = Ret None ∧
     TranslationCache._cache (TranslationCache.get key now c1).2 !! key = None ∧
     TranslationCache._timestamps (TranslationCache.get key now c1).2 !! key = None).
Proof.
  intros c1 d.
  assert (Hg : TranslationCache.get key now c1 = _)
    by (apply (cache_get_entry key v t now c1); apply lookup_insert_eq).
  fold d in Hg. rewrite Hg. split; intros H.
  - destruct (Z.ltb_spec d (now - t)); [lia | done].
  - destruct (Z.ltb_spec d (now - t)); [|lia].
    simpl. by rewrite !lookup_delete_eq.
Qed.

Lemma cache_ttl_expiry_witness :
  let c1 := TranslationCache.set "en" [("k", VStr "v")] 100 (TranslationCache.init 30) in
  (1800000100 ≤ 100 + TranslationCache._ttl c1 ∧
   TranslationCache.get "en" 1800000100 c1 = (Ret (Some [("k", VStr "v")]), c1)) ∧
  (100 + TranslationCache._ttl c1 < 1800000101 ∧
   (TranslationCache.get "en" 1800000101 c1).1 = Ret None).
Proof.
  intros c1.
  pose proof (cache_ttl_expiry (TranslationCache.init 30) "en" [("k", VStr "v")] 100
                1800000100) as [H1 _].
  pose proof (cache_ttl_expiry (TranslationCache.init 30) "en" [("k", VStr "v")] 100
                1800000101) as [_ H2].
  assert (Hle : 1800000100 ≤ 100 + TranslationCache._ttl c1) by (vm_compute; discriminate).
  assert (Hlt : 100 + TranslationCache._ttl c1 < 1800000101) by (vm_compute; reflexivity).
  split; split; [exact Hle | exact (H1 Hle) | exact Hlt | exact (proj1 (H2 Hlt))].
Defined.

(** C1 as stated fails at the boundary: an entry stamped at 0 under a TTL
    of 30 minutes is still returned, and kept, by a [get] at exactly
    [0 + d]. *)
Lemma cache_get_at_ttl_boundary :
  let c1 := TranslationCache.set "en" [("greeting", VStr "Hello")] 0
              (TranslationCache.init 30) in
  0 + TranslationCache._ttl c1 ≤ 1800000000 ∧
  TranslationCache.get "en" 1800000000 c1 = (Ret (Some [("greeting", VStr "Hello")]), c1).
Proof.
  intros c1. split; [vm_compute; discriminate |].
  apply (cache_get_entry "en" [("greeting", VStr "Hello")] 0 1800000000 c1);
    subst c1; simpl; apply lookup_insert_eq.
Qed.

(** ** Clearing *)

Lemma str_truthy_true (s : string) : s ≠ "" → str_truthy s = true.
Proof.
  intros H. unfold str_truthy. destruct (String.eqb_spec s ""); [contradiction | done].
Qed.

(** C9: [clear] with the empty string as key empties both maps of the
    cache, exactly as [clear(None)] does, where any other key removes its
    own entry only; [clear_cache] with the empty string likewise returns
    having emptied the cache and all file watchers, exactly as
    [clear_cache(None)], where any other key removes its own watcher
    only. *)
Theorem clear_empty_string_clears_all (c : TranslationCache.t) (w : world) :
  TranslationCache.clear (Some "") c = TranslationCache.clear None c ∧
  TranslationCache._cache (TranslationCache.clear (Some "") c) = ∅ ∧
  TranslationCache._timestamps (TranslationCache.clear (Some "") c) = ∅ ∧
  (∀ k, k ≠ "" →
     TranslationCache._cache (TranslationCache.clear (Some k) c)
       = delete k (TranslationCache._cache c) ∧
     TranslationCache._timestamps (TranslationCache.clear (Some k) c)
       = delete k (TranslationCache._timestamps c)) ∧
  clear_cache (Some "") w = clear_cache None w ∧
  (clear_cache (Some "") w).1 = Ret tt ∧
  _file_watchers (clear_cache (Some "") w).2 = ∅ ∧
  (∃ c', _cache (clear_cache (Some "") w).2 = Some c' ∧
         TranslationCache._cache c' = ∅ ∧ TranslationCache._timestamps c' = ∅) ∧
  (∀ k, k ≠ "" →
     _file_watchers (clear_cache (Some k) w).2 = delete k (_file_watchers w)).
Proof.
  split_and!; try reflexivity.
  - intros k Hk. unfold TranslationCache.clear. by rewrite (str_truthy_true k Hk).
  - by destruct w as [s [c0|] fw f d k n io].
  - by destruct w as [s [c0|] fw f d k n io].
  - destruct w as [s [c0|] fw f d k n io]; simpl; eexists; split_and!; reflexivity.
  - intros k Hk. destruct w as [s [c0|] fw f d k' n io];
      cbv [clear_cache _ensure_cache cache_clear mbind M_bind modify]; simpl;
      by rewrite (str_truthy_true k Hk).
Qed.

Lemma clear_empty_string_clears_all_witness :
  "en" ≠ "" ∧
  TranslationCache._cache
    (TranslationCache.clear (Some "en")
       (TranslationCache.set "de" [] 1 (TranslationCache.set "en" [] 0 (TranslationCache.init 30))))
  = delete "en"
      (TranslationCache._cache
         (TranslationCache.set "de" [] 1 (TranslationCache.set "en" [] 0 (TranslationCache.init 30)))).
Proof.
  assert (H : "en" ≠ "") by discriminate.
  split; [exact H |].
  exact (proj1 (proj1 (proj2 (proj2 (proj2
    (clear_empty_string_clears_all
       (TranslationCache.set "de" [] 1 (TranslationCache.set "en" [] 0 (TranslationCache.init 30)))
       (initial_world (λ _, mk_source Absent None LoadOSError) (λ _, DirAbsent) (λ _, 0)))))) "en" H)).
Defined.

(** ** Key navigation *)




Section Resolution.

Variable format_ext : string → gmap string string → fmt_result.










End Resolution.



(** ** The batch query *)

Lemma str_truthy_spec (s : string) : str_truthy s = true ↔ s ≠ "".
Proof.
  unfold str_truthy. destruct (String.eqb_spec s ""); simpl; split; congruence.
Qed.

Section Batch.

Variable format_ext : string → gmap string string → fmt_result.



End Batch.


(** ** Running the loader step by step *)

Lemma with_events_app (evs1 evs2 : list io_event) (w : world) :
  with_events evs2 (with_events evs1 w) = with_events (evs1 ++ evs2) w.
Proof. unfold with_events; simpl. by rewrite app_assoc. Qed.

Lemma bind_run {A B} (m : M A) (f : A → M B) (w w' : world) (r : outcome A) :
  m w = (r, w') →
  (m ≫= f) w = match r with Ret a => f a w' | Exc e => (Exc e, w') end.
Proof. intros H. unfold_monad. by rewrite H. Qed.

Lemma attempt_run {A} (m : M A) (w w' : world) (r : outcome A) :
  m w = (r, w') → attempt m w = (Ret r, w').
Proof. intros H. unfold attempt. by rewrite H. Qed.

Lemma cache_get_not_cached (w : world) (code : string) :
  code ∉ cached_langs w →
  cache_get code w = (Ret None, w) ∨ cache_get code w = (Exc AttributeError, w).
Proof.
  unfold cached_langs, cache_get, TranslationCache.get. intros H.
  destruct w as [s [c|] fw f d k n io]; simpl in *; [|by right].
  apply not_elem_of_dom in H. rewrite H.
  rewrite decide_False by (intros [? ?]; congruence). by left.
Qed.

Lemma check_unchanged_blocked (force_reload : bool) (code : string) (mtime : Z) (w : world) :
  force_reload = true ∨ code ∉ cached_langs w ∨ _file_watchers w !! code ≠ Some mtime →
  check_unchanged force_reload code mtime w = (Ret None, w) ∨
  check_unchanged force_reload code mtime w = (Exc AttributeError, w).
Proof.
  intros H. unfold check_unchanged.
  rewrite (bind_run _ _ w w (Ret (_file_watchers w))) by done.
  destruct force_reload.
  - rewrite andb_false_r. by left.
  - destruct H as [? | [H | H]]; [discriminate | |].
    + destruct (bool_decide _); simpl; [|by left].
      destruct (cache_get_not_cached w code H) as [Hg | Hg];
        rewrite (bind_run _ _ _ _ _ Hg); auto.
    + rewrite bool_decide_false by done. by left.
Qed.

Lemma cache_get_absent (w : world) (c : TranslationCache.t) (code : string) :
  _cache w = Some c → code ∉ cached_langs w → cache_get code w = (Ret None, w).
Proof.
  intros Hc H. destruct (cache_get_not_cached w code H) as [Hg | Hg]; [done |].
  exfalso. revert Hg. unfold cache_get. rewrite Hc.
  destruct (TranslationCache.get _ _ _) as [r c'] eqn:E. intros [= -> _].
  revert E. unfold TranslationCache.get. repeat case_match; discriminate.
Qed.

Lemma check_unchanged_skips (force_reload : bool) (code : string) (mtime : Z) (w : world)
    (c : TranslationCache.t) :
  _cache w = Some c →
  force_reload = true ∨ code ∉ cached_langs w ∨ _file_watchers w !! code ≠ Some mtime →
  check_unchanged force_reload code mtime w = (Ret None, w).
Proof.
  intros Hc H. unfold check_unchanged.
  rewrite (bind_run _ _ w w (Ret (_file_watchers w))) by done.
  destruct force_reload.
  - by rewrite andb_false_r.
  - destruct H as [? | [H | H]]; [discriminate | |].
    + destruct (bool_decide _); simpl; [|done].
      by rewrite (bind_run _ _ _ _ _ (cache_get_absent w c code Hc H)).
    + by rewrite bool_decide_false by done.
Qed.

Lemma load_candidate_absent (lang_code : string) (force_reload : bool) (code : string)
    (w : world) :
  src_exists (source_of w code) = Absent →
  load_candidate lang_code force_reload code w
    = (Ret FileNotFound, with_events [EvExists (file_path (_settings w) code)] w).
Proof.
  unfold source_of. intros H. unfold load_candidate, path_exists. unfold_monad.
  by rewrite H.
Qed.

Lemma path_mtime_run (p : string) (w : world) :
  path_mtime p w =
    (match src_mtime (files w p) with Some m => Ret m | None => Exc OSError end,
     with_events [EvStat p] w).
Proof. unfold path_mtime. by destruct (src_mtime (files w p)). Qed.

Lemma path_exists_run (p : string) (w : world) :
  path_exists p w =
    (match src_exists (files w p) with
     | Absent => Ret false | Present => Ret true | ProbeError => Exc OSError
     end, with_events [EvExists p] w).
Proof. unfold path_exists. by destruct (src_exists (files w p)). Qed.

Lemma safe_load_run (p : string) (w : world) :
  safe_load p w =
    (match src_load (files w p) with
     | Parsed v => Ret v | LoadYAMLError => Exc YAMLError | LoadOSError => Exc OSError
     end, with_events [EvRead p] w).
Proof. unfold safe_load. by destruct (src_load (files w p)). Qed.

Lemma read_and_store_invalid (lang_code code p : string) (mtime : Z) (w : world) :
  (src_load (files w p) = LoadYAMLError ∨ src_load (files w p) = LoadOSError ∨
   ∃ v, src_load (files w p) = Parsed v ∧ truthy v = true ∧ ∀ d, v ≠ VDict d) →
  ∃ r, read_and_store lang_code code p mtime w = (r, with_events [EvRead p] w) ∧
       (r = Ret Failed ∨ ∃ e, r = Exc e).
Proof.
  intros H. unfold read_and_store.
  rewrite (bind_run _ _ _ _ _ (safe_load_run p w)).
  destruct H as [-> | [-> | (v & -> & Hv & Hnd)]];
    [by eexists; split; [reflexivity | right; eexists] ..|].
  rewrite Hv. exists (Ret Failed). split; [|by left].
  destruct v; try done. by destruct (Hnd d).
Qed.

Lemma read_and_store_valid (lang_code code p : string) (mtime : Z) (w : world)
    (c : TranslationCache.t) (v : value) (data : tree) :
  src_load (files w p) = Parsed v →
  (if truthy v then v else VDict []) = VDict data →
  _cache w = Some c →
  read_and_store lang_code code p mtime w =
    (Ret (Loaded data),
     with_file_watchers (<[code := mtime]> (_file_watchers w))
       (with_tick
          (with_cache (Some (TranslationCache.set lang_code data (clock w (ticks w)) c))
             (with_events [EvRead p] w)))).
Proof.
  intros Hload Hdata Hc. unfold read_and_store.
  rewrite (bind_run _ _ _ _ _ (safe_load_run p w)). rewrite Hload, Hdata.
  unfold cache_set. unfold_monad. simpl. by rewrite Hc.
Qed.

Lemma load_candidate_unusable (lang_code : string) (force_reload : bool) (code : string)
    (w : world) :
  unusable (source_of w code) →
  reuse_blocked w force_reload code →
  ∃ o evs,
    load_candidate lang_code force_reload code w = (Ret o, with_events evs w) ∧
    (o = FileNotFound ∨ o = Failed).
Proof.
  unfold reuse_blocked, source_of. intros Hsrc Hcache. unfold load_candidate.
  rewrite (bind_run _ _ w w (Ret (_settings w))) by done.
  set (p := file_path (_settings w) code) in *.
  rewrite (bind_run _ _ _ _ _ (path_exists_run p w)).
  destruct Hsrc as [-> | [-> Hbad]];
    [by eexists _, _; split; [reflexivity | left] |]. cbn beta iota.
  set (w1 := with_events [EvExists p] w).
  assert (Htry : ∃ r evs, try_file lang_code force_reload code p w1 = (r, with_events evs w1)
                          ∧ (r = Ret Failed ∨ ∃ e, r = Exc e)).
  { unfold try_file. rewrite (bind_run _ _ _ _ _ (path_mtime_run p w1)).
    change (files w1 p) with (files w p).
    destruct Hbad as [-> | Hbad];
      [by eexists _, _; split; [reflexivity | right; eexists] |].
    destruct (src_mtime (files w p)) as [mtime|];
      [|by eexists _, _; split; [reflexivity | right; eexists]].
    cbn beta iota.
    set (w2 := with_events [EvStat p] w1).
    destruct (check_unchanged_blocked force_reload code mtime w2 Hcache) as [Hc | Hc];
      rewrite (bind_run _ _ _ _ _ Hc); cbn beta iota.
    - destruct (read_and_store_invalid lang_code code p mtime w2 Hbad) as (r & -> & Hr).
      exists r, [EvStat p; EvRead p]. split; [|done].
      subst w2. by rewrite with_events_app.
    - exists (Exc AttributeError), [EvStat p]. split; [done | right; by eexists]. }
  destruct Htry as (r & evs & Htry & Hr).
  rewrite (bind_run _ _ _ _ _ (attempt_run _ _ _ _ Htry)).
  exists Failed, (EvExists p :: evs). split; [|by right].
  subst w1. rewrite with_events_app. simpl.
  destruct Hr as [-> | [e ->]]; reflexivity.
Qed.

Lemma load_candidate_usable (lang_code : string) (force_reload : bool) (code : string)
    (w : world) (c : TranslationCache.t) (mtime : Z) (data : tree) :
  usable (source_of w code) mtime data →
  reuse_blocked w force_reload code →
  _cache w = Some c →
  load_candidate lang_code force_reload code w =
    (Ret (Loaded data),
     with_file_watchers (<[code := mtime]> (_file_watchers w))
       (with_tick
          (with_cache (Some (TranslationCache.set lang_code data (clock w (ticks w)) c))
             (with_events [EvExists (file_path (_settings w) code);
                           EvStat (file_path (_settings w) code);
                           EvRead (file_path (_settings w) code)] w)))).
Proof.
  unfold reuse_blocked, source_of. intros (Hex & Hm & v & Hv & Hdata) Hcache Hc.
  rewrite Hm in Hcache. unfold load_candidate.
  rewrite (bind_run _ _ w w (Ret (_settings w))) by done.
  set (p := file_path (_settings w) code) in *.
  rewrite (bind_run _ _ _ _ _ (path_exists_run p w)). rewrite Hex. cbn beta iota.
  set (w1 := with_events [EvExists p] w).
  assert (Htry : try_file lang_code force_reload code p w1 =
            (Ret (Loaded data),
             with_file_watchers (<[code := mtime]> (_file_watchers w))
               (with_tick
                  (with_cache
                     (Some (TranslationCache.set lang_code data (clock w (ticks w)) c))
                     (with_events [EvExists p; EvStat p; EvRead p] w))))).
  { unfold try_file. rewrite (bind_run _ _ _ _ _ (path_mtime_run p w1)).
    change (files w1 p) with (files w p). rewrite Hm. cbn beta iota.
    set (w2 := with_events [EvStat p] w1).
    assert (Hc2 : _cache w2 = Some c) by done.
    assert (Hget : check_unchanged force_reload code mtime w2 = (Ret None, w2))
      by (by apply (check_unchanged_skips force_reload code mtime w2 c)).
    rewrite (bind_run _ _ _ _ _ Hget). cbn beta iota.
    rewrite (read_and_store_valid lang_code code p mtime w2 c v data Hv Hdata Hc2).
    subst w2 w1. unfold with_events, with_tick, with_cache, with_file_watchers; simpl.
    by rewrite <- !app_assoc. }
  by rewrite (bind_run _ _ _ _ _ (attempt_run _ _ _ _ Htry)).
Qed.

Lemma ensure_cache_run (w : world) :
  _ensure_cache w =
    (Ret tt,
     with_cache (Some (default (TranslationCache.init (cache_ttl_minutes (_settings w)))
                         (_cache w))) w).
Proof. unfold _ensure_cache. by destruct w as [s [c|] fw f d k n io]. Qed.

Lemma cache_get_miss (w : world) (lang : string) :
  is_Some (_cache w) →
  cache_miss w lang →
  ∃ w', cache_get lang w = (Ret None, w') ∧
        is_Some (_cache w') ∧ _settings w' = _settings w ∧ files w' = files w ∧
        _file_watchers w' = _file_watchers w ∧ io_log w' = io_log w ∧
        cached_langs w' = cached_langs w ∖ {[lang]}.
Proof.
  intros [c Hc] Hmiss. unfold cache_miss in Hmiss.
  unfold cache_get, TranslationCache.get, cached_langs.
  rewrite Hc in *.
  destruct (TranslationCache._cache c !! lang) as [v|] eqn:Hv.
  - destruct Hmiss as (stamp & Hs & Hexp). rewrite Hs.
    apply Z.ltb_lt in Hexp. rewrite Hexp.
    rewrite decide_True by eauto.
    eexists. split; [reflexivity |]. simpl. split_and!; eauto.
    by rewrite dom_delete_L.
  - rewrite decide_False by (intros [? ?]; congruence).
    eexists. split; [reflexivity |]. simpl. split_and!; eauto.
    apply not_elem_of_dom in Hv. set_solver.
Qed.

Lemma load_messages_enters_loop (w : world) (lang_code : string) (force_reload : bool) :
  force_reload = true ∨ cache_miss w lang_code →
  ∃ w0 c0,
    _cache w0 = Some c0 ∧ _settings w0 = _settings w ∧ files w0 = files w ∧
    _file_watchers w0 = _file_watchers w ∧ io_log w0 = io_log w ∧
    cached_langs w0 ⊆ cached_langs w ∧
    (force_reload = true ∨ lang_code ∉ cached_langs w0) ∧
    {[lang_code]} ∪ cached_langs w0 = {[lang_code]} ∪ cached_langs w ∧
    load_messages lang_code force_reload w
      = load_loop lang_code force_reload (lang_code :: fallback_languages (_settings w)) w0.
Proof.
  intros Hmiss. unfold load_messages.
  rewrite (bind_run _ _ _ _ _ (ensure_cache_run w)). cbn beta iota.
  set (w0 := with_cache _ w).
  assert (Hlangs : cached_langs w0 = cached_langs w).
  { subst w0. unfold cached_langs; simpl. destruct (_cache w); simpl; [done |].
    by rewrite dom_empty_L. }
  destruct force_reload.
  - exists w0. eexists. split_and!; try reflexivity; try (by left).
    + by rewrite Hlangs.
    + by rewrite Hlangs.
  - destruct Hmiss as [? | Hmiss]; [discriminate |].
    destruct (cache_get_miss w0 lang_code) as (w' & Hget & [c' Hc'] & Hs & Hf & Hfw & Hio & Hl).
    + by eexists.
    + unfold cache_miss in *. subst w0. simpl.
      destruct (_cache w) as [c|]; simpl; [exact Hmiss | by rewrite lookup_empty].
    + exists w', c'. rewrite (bind_run _ _ _ _ _ Hget). cbn beta iota.
      rewrite (bind_run _ _ w' w' (Ret (_settings w'))) by done. rewrite Hs.
      split_and!; try done.
      * rewrite Hl, Hlangs. set_solver.
      * right. rewrite Hl. set_solver.
      * rewrite Hl, Hlangs. apply set_eq. intros x.
        destruct (decide (x = lang_code)); set_solver.
Qed.


(** C2, as the code has it: with the chain [[A; B]], when the sources of
    [X] and [A] are absent or invalid and the source of [B] parses to a
    mapping, [load_messages X] returns the tree of [B], stores exactly
    that tree under [X] (the only key it adds to the cache) and records
    the modification time under [B], provided the cache check for [X]
    misses or reload is forced, and the modification-time check has
    nothing to reuse for [A] or [B]. *)
Theorem fallback_order (w : world) (X A B : string) (force_reload : bool)
    (mtime : Z) (data : tree) :
  fallback_languages (_settings w) = [A; B] →
  unusable (source_of w X) →
  unusable (source_of w A) →
  usable (source_of w B) mtime data →
  force_reload = true ∨ cache_miss w X →
  reuse_blocked w force_reload A →
  reuse_blocked w force_reload B →
  let w1 := (load_messages X force_reload w).2 in
  (load_messages X force_reload w).1 = Ret data ∧
  (∃ stamp, holds_entry w1 X data stamp) ∧
  _file_watchers w1 = <[B := mtime]> (_file_watchers w) ∧
  cached_langs w1 = {[X]} ∪ cached_langs w.
Proof.
  intros Hchain HX HA HB Hmiss HbA HbB w1.
  destruct (load_messages_enters_loop w X force_reload Hmiss)
    as (w0 & c0 & Hc0 & Hs & Hf & Hfw & Hio & Hsub & HX0 & Hunion & Hrun).
  assert (Hsrc : ∀ evs code, source_of (with_events evs w0) code = source_of w code).
  { intros evs code. unfold source_of; simpl. by rewrite Hs, Hf. }
  assert (Hblocked : ∀ code, reuse_blocked w force_reload code →
            ∀ evs, reuse_blocked (with_events evs w0) force_reload code).
  { intros code [? | [Hn | Hm]] evs; [by left | right; left | right; right].
    - change (cached_langs (with_events evs w0)) with (cached_langs w0). set_solver.
    - rewrite Hsrc. change (_file_watchers (with_events evs w0)) with (_file_watchers w0).
      by rewrite Hfw. }
  subst w1. rewrite Hrun, Hchain. cbn [load_loop].
  (* the requested language itself *)
  destruct (load_candidate_unusable X force_reload X w0) as (o1 & evs1 & Hc1 & Ho1).
  { unfold source_of. by rewrite Hs, Hf. }
  { destruct HX0 as [? | ?]; [by left | right; by left]. }
  rewrite (bind_run _ _ _ _ _ Hc1).
  assert (Hskip1 : ∀ T (k1 k2 : tree → T) (k : T),
            match o1 with Unchanged c => k1 c | Loaded d => k2 d | _ => k end = k)
    by (intros; by destruct Ho1 as [-> | ->]).
  rewrite Hskip1.
  (* the first fallback *)
  destruct (load_candidate_unusable X force_reload A (with_events evs1 w0))
    as (o2 & evs2 & Hc2 & Ho2).
  { by rewrite Hsrc. }
  { by apply Hblocked. }
  rewrite (bind_run _ _ _ _ _ Hc2).
  assert (Hskip2 : ∀ T (k1 k2 : tree → T) (k : T),
            match o2 with Unchanged c => k1 c | Loaded d => k2 d | _ => k end = k)
    by (intros; by destruct Ho2 as [-> | ->]).
  rewrite Hskip2. rewrite with_events_app.
  (* the second fallback *)
  rewrite (bind_run _ _ _ _ _
             (load_candidate_usable X force_reload B (with_events (evs1 ++ evs2) w0) c0
                mtime data ltac:(by rewrite Hsrc) ltac:(by apply Hblocked) Hc0)).
  cbn. split_and!.
  - done.
  - eexists _, _. split_and!; [reflexivity | apply lookup_insert_eq | apply lookup_insert_eq].
  - by rewrite Hfw.
  - unfold cached_langs in *. simpl. rewrite dom_insert_L.
    rewrite Hc0 in Hunion. exact Hunion.
Qed.

Section Exhaustion.

Variable format_ext : string → gmap string string → fmt_result.




End Exhaustion.

Lemma fallback_order_witness :
  let w := initial_world files_de no_dirs frozen_clock in
  let w1 := (load_messages "es" false w).2 in
  (fallback_languages (_settings w) = ["en"; "de"] ∧
   unusable (source_of w "es") ∧ unusable (source_of w "en") ∧
   usable (source_of w "de") 1700000000 sample_tree ∧
   cache_miss w "es" ∧ reuse_blocked w false "en" ∧ reuse_blocked w false "de") ∧
  (load_messages "es" false w).1 = Ret sample_tree ∧
  (∃ stamp, holds_entry w1 "es" sample_tree stamp) ∧
  _file_watchers w1 = <[ "de" := 1700000000 ]> (_file_watchers w) ∧
  cached_langs w1 = {[ "es" ]} ∪ cached_langs w.
Proof.
  intros w w1.
  assert (Hchain : fallback_languages (_settings w) = ["en"; "de"]) by reflexivity.
  assert (Hes : unusable (source_of w "es")) by (left; reflexivity).
  assert (Hen : unusable (source_of w "en")) by (left; reflexivity).
  assert (Hde : usable (source_of w "de") 1700000000 sample_tree).
  { split_and!; [reflexivity | reflexivity |].
    exists (VDict sample_tree). split; reflexivity. }
  assert (Hmiss : cache_miss w "es") by exact I.
  assert (Hb1 : reuse_blocked w false "en") by (right; left; apply not_elem_of_empty).
  assert (Hb2 : reuse_blocked w false "de") by (right; left; apply not_elem_of_empty).
  split; [by split_and! |].
  exact (fallback_order w "es" "en" "de" false 1700000000 sample_tree Hchain Hes Hen Hde
           (or_intror Hmiss) Hb1 Hb2).
Defined.

(** C2 as stated fails once the fallback language has been loaded under
    its own code: with chain [["en"; "de"]] and only [de.yaml] present,
    [load_messages "de"] followed by [load_messages "es"] returns the
    tree of "de" through the modification-time check and stores nothing
    under "es". *)
Lemma fallback_reuse_leaves_requested_code_uncached :
  let w0 := initial_world files_de no_dirs frozen_clock in
  let w1 := (load_messages "de" false w0).2 in
  let w2 := (load_messages "es" false w1).2 in
  fallback_languages (_settings w1) = ["en"; "de"] ∧
  unusable (source_of w1 "es") ∧ unusable (source_of w1 "en") ∧
  usable (source_of w1 "de") 1700000000 sample_tree ∧
  (load_messages "es" false w1).1 = Ret sample_tree ∧
  (∃ c, _cache w2 = Some c ∧ TranslationCache._cache c !! "es" = None) ∧
  ¬ (∃ stamp, holds_entry w2 "es" sample_tree stamp).
Proof.
  intros w0 w1 w2.
  assert (Hc : ∃ c, _cache w2 = Some c ∧ TranslationCache._cache c !! "es" = None).
  { eexists. split; [vm_compute; reflexivity | vm_compute; reflexivity]. }
  split_and!.
  - reflexivity.
  - left; reflexivity.
  - left; reflexivity.
  - split_and!; [reflexivity | reflexivity |].
    exists (VDict sample_tree). split; reflexivity.
  - vm_compute. reflexivity.
  - exact Hc.
  - intros (stamp & c' & Hc' & Hv & _). destruct Hc as (c & Hc1 & Hc2).
    rewrite Hc1 in Hc'. injection Hc' as <-. rewrite Hc2 in Hv. discriminate.
Qed.



(** ** Invariants of the loader *)

Lemma preserves_ret {A} (I : world → Prop) (a : A) : preserves I (mret a).
Proof. by intros w H. Qed.

Lemma preserves_bind {A B} (I : world → Prop) (m : M A) (f : A → M B) :
  preserves I m → (∀ a, preserves I (f a)) → preserves I (m ≫= f).
Proof.
  intros Hm Hf w H. unfold_monad. specialize (Hm w H).
  destruct (m w) as [[a|e] w']; simpl in *; [by apply Hf | done].
Qed.

Lemma preserves_attempt {A} (I : world → Prop) (m : M A) :
  preserves I m → preserves I (attempt m).
Proof. intros Hm w H. unfold attempt. specialize (Hm w H). by destruct (m w). Qed.

Lemma preserves_gets {A} (I : world → Prop) (f : world → A) : preserves I (gets f).
Proof. by intros w H. Qed.

Lemma preserves_modify (I : world → Prop) (f : world → world) :
  (∀ w, I w → I (f w)) → preserves I (modify f).
Proof. intros Hf w H. by apply Hf. Qed.

Create HintDb preserves.
#[global] Hint Resolve preserves_ret preserves_gets preserves_attempt : preserves.

(** Any property of the state that file-system accesses and the recording
    of modification times leave alone, that [_ensure_cache] and
    [cache_get] keep, and that [cache_set] keeps for the keys in [ok_key],
    is kept by the loader whenever the requested code is in [ok_key]. *)
Section LoaderInvariant.

Variable I : world → Prop.
Variable ok_key : string → Prop.

Hypothesis I_events : ∀ evs w, I w → I (with_events evs w).
Hypothesis I_watchers : ∀ fw w, I w → I (with_file_watchers fw w).
Hypothesis I_ensure : preserves I _ensure_cache.
Hypothesis I_get : ∀ key, preserves I (cache_get key).
Hypothesis I_set : ∀ key v, ok_key key → preserves I (cache_set key v).

Lemma inv_path_exists (p : string) : preserves I (path_exists p).
Proof.
  intros w H. unfold path_exists.
  destruct (src_exists _); apply (I_events [EvExists p] w H).
Qed.

Lemma inv_path_mtime (p : string) : preserves I (path_mtime p).
Proof.
  intros w H. unfold path_mtime.
  destruct (src_mtime _); apply (I_events [EvStat p] w H).
Qed.

Lemma inv_safe_load (p : string) : preserves I (safe_load p).
Proof.
  intros w H. unfold safe_load.
  destruct (src_load _); apply (I_events [EvRead p] w H).
Qed.

Lemma inv_list_dir (p : string) : preserves I (list_dir p).
Proof.
  intros w H. unfold list_dir.
  destruct (dirs w p); apply (I_events [EvGlob p] w H).
Qed.

Lemma inv_check_unchanged (force_reload : bool) (code : string) (mtime : Z) :
  preserves I (check_unchanged force_reload code mtime).
Proof.
  unfold check_unchanged. apply preserves_bind; [auto with preserves |].
  intros fw. destruct (_ && _); [|auto with preserves].
  apply preserves_bind; [apply I_get | auto with preserves].
Qed.

Lemma inv_read_and_store (lang_code code p : string) (mtime : Z) :
  ok_key lang_code → preserves I (read_and_store lang_code code p mtime).
Proof.
  intros Hl. unfold read_and_store.
  apply preserves_bind; [apply inv_safe_load |].
  intros v. destruct (if truthy v then v else VDict []); auto with preserves.
  apply preserves_bind; [by apply I_set |]. intros _.
  apply preserves_bind; [apply preserves_modify; auto | auto with preserves].
Qed.

Lemma inv_try_file (lang_code : string) (force_reload : bool) (code p : string) :
  ok_key lang_code → preserves I (try_file lang_code force_reload code p).
Proof.
  intros Hl. unfold try_file.
  apply preserves_bind; [apply inv_path_mtime |]. intros mtime.
  apply preserves_bind; [apply inv_check_unchanged |].
  intros [c|]; [auto with preserves | by apply inv_read_and_store].
Qed.

Lemma inv_load_candidate (lang_code : string) (force_reload : bool) (code : string) :
  ok_key lang_code → preserves I (load_candidate lang_code force_reload code).
Proof.
  intros Hl. unfold load_candidate.
  apply preserves_bind; [auto with preserves |]. intros s.
  apply preserves_bind; [apply inv_path_exists |].
  intros [|]; [|auto with preserves].
  apply preserves_bind; [|auto with preserves].
  by apply preserves_attempt, inv_try_file.
Qed.

Lemma inv_load_loop (lang_code : string) (force_reload : bool) (candidates : list string) :
  ok_key lang_code → preserves I (load_loop lang_code force_reload candidates).
Proof.
  intros Hl. induction candidates as [|code rest IH]; cbn [load_loop].
  - apply preserves_bind; [by apply I_set | auto with preserves].
  - apply preserves_bind; [by apply inv_load_candidate |].
    intros [| | |]; auto with preserves.
Qed.

Lemma inv_load_messages (lang_code : string) (force_reload : bool) :
  ok_key lang_code → preserves I (load_messages lang_code force_reload).
Proof.
  intros Hl. unfold load_messages.
  apply preserves_bind; [apply I_ensure |]. intros _.
  apply preserves_bind.
  - destruct force_reload; [auto with preserves | apply I_get].
  - intros [c|]; [auto with preserves |].
    apply preserves_bind; [auto with preserves |]. intros s.
    by apply inv_load_loop.
Qed.

End LoaderInvariant.

(** The loader changes neither the settings nor the files. *)
Lemma load_messages_frame (lang_code : string) (force_reload : bool) (w : world) :
  _settings (load_messages lang_code force_reload w).2 = _settings w ∧
  files (load_messages lang_code force_reload w).2 = files w.
Proof.
  apply (inv_load_messages (λ w', _settings w' = _settings w ∧ files w' = files w)
           (λ _, True)); try done.
  - by intros [s [c|] fw f d k n io] H.
  - intros key [s [c|] fw f d k n io] H; unfold cache_get; simpl in *; [|done].
    destruct (TranslationCache.get _ _ _). by case_decide.
  - by intros key v _ [s [c|] fw f d k n io] H.
Qed.

Lemma load_candidate_frame (lang_code : string) (force_reload : bool) (code : string)
    (w : world) :
  _settings (load_candidate lang_code force_reload code w).2 = _settings w ∧
  files (load_candidate lang_code force_reload code w).2 = files w.
Proof.
  apply (inv_load_candidate (λ w', _settings w' = _settings w ∧ files w' = files w)
           (λ _, True)); try done.
  - intros key [s [c|] fw f d k n io] H; unfold cache_get; simpl in *; [|done].
    destruct (TranslationCache.get _ _ _). by case_decide.
  - by intros key v _ [s [c|] fw f d k n io] H.
Qed.

(** ** Codes that are never requested are never cached *)

Section NotCached.

Variable avoid : string.


Lemma not_cached_get (key : string) : preserves (not_cached avoid) (cache_get key).
Proof.
  intros [s [c|] fw f d k n io] H;
    unfold not_cached, cached_langs, cache_get, TranslationCache.get in *;
    simpl in *; [|done].
  destruct (TranslationCache._cache c !! key); [|by case_decide].
  destruct (TranslationCache._timestamps c !! key); [|by case_decide].
  destruct (_ <? _); case_decide; simpl; rewrite ?dom_delete_L; set_solver.
Qed.





Section WithFormatter.

Variable format_ext : string → gmap string string → fmt_result.








End WithFormatter.
End NotCached.

(** ** The candidates of one call *)

Lemma read_and_store_outcome (lang_code code p : string) (mtime : Z) (w : world)
    (o : candidate_outcome) :
  (read_and_store lang_code code p mtime w).1 = Ret o →
  o = Failed ∨
  ∃ v data, o = Loaded data ∧ src_load (files w p) = Parsed v ∧
            (if truthy v then v else VDict []) = VDict data.
Proof.
  unfold read_and_store. rewrite (bind_run _ _ _ _ _ (safe_load_run p w)).
  destruct (src_load (files w p)) as [| |v]; [discriminate | discriminate |].
  cbn beta iota.
  destruct (if truthy v then v else VDict []) as [| | | | |data] eqn:Hdata;
    try (intros [= <-]; by left).
  unfold cache_set. unfold_monad. simpl.
  destruct (_cache w); simpl; [|discriminate].
  intros [= <-]. right. by exists v, data.
Qed.

Lemma try_file_outcome (lang_code : string) (force_reload : bool) (code p : string)
    (w : world) (o : candidate_outcome) :
  force_reload = true ∨ code ∉ cached_langs w →
  (try_file lang_code force_reload code p w).1 = Ret o →
  o = Failed ∨
  ∃ v data, o = Loaded data ∧ src_load (files w p) = Parsed v ∧
            (if truthy v then v else VDict []) = VDict data.
Proof.
  intros Hblocked. unfold try_file. rewrite (bind_run _ _ _ _ _ (path_mtime_run p w)).
  destruct (src_mtime (files w p)) as [mtime|]; [|discriminate]. cbn beta iota.
  set (w1 := with_events [EvStat p] w).
  assert (Hblocked' : force_reload = true ∨ code ∉ cached_langs w1 ∨
                      _file_watchers w1 !! code ≠ Some mtime)
    by (destruct Hblocked; auto).
  destruct (check_unchanged_blocked force_reload code mtime w1 Hblocked') as [Hc | Hc];
    rewrite (bind_run _ _ _ _ _ Hc); cbn beta iota; [|discriminate].
  intros H. exact (read_and_store_outcome lang_code code p mtime w1 o H).
Qed.

Lemma load_candidate_outcome (lang_code : string) (force_reload : bool) (code : string)
    (w : world) (o : candidate_outcome) :
  force_reload = true ∨ code ∉ cached_langs w →
  (load_candidate lang_code force_reload code w).1 = Ret o →
  o = FileNotFound ∨ o = Failed ∨
  ∃ v data, o = Loaded data ∧ src_load (source_of w code) = Parsed v ∧
            (if truthy v then v else VDict []) = VDict data.
Proof.
  intros Hblocked. unfold load_candidate, source_of.
  rewrite (bind_run _ _ w w (Ret (_settings w))) by done. cbn beta iota.
  set (p := file_path (_settings w) code).
  rewrite (bind_run _ _ _ _ _ (path_exists_run p w)).
  destruct (src_exists (files w p)); cbn beta iota;
    [intros [= <-]; by left | | discriminate].
  set (w1 := with_events [EvExists p] w).
  unfold_monad.
  destruct (try_file lang_code force_reload code p w1) as [[o'|e] w2] eqn:Htry; simpl.
  - intros [= <-]. right.
    apply (try_file_outcome lang_code force_reload code p w1 o' Hblocked).
    by rewrite Htry.
  - intros [= <-]. right. by left.
Qed.

Section Trace.

Variable avoid : string.



End Trace.

(** The trace is the one of [load_messages]: a candidate whose iteration
    ends in a [return] gives the call its result. *)
Lemma loop_trace_return (lang_code : string) (force_reload : bool)
    (candidates : list string) :
  ∀ (w : world) (code : string) (t : tree),
    (code, Ret (Unchanged t)) ∈ loop_trace lang_code force_reload candidates w ∨
    (code, Ret (Loaded t)) ∈ loop_trace lang_code force_reload candidates w →
    (load_loop lang_code force_reload candidates w).1 = Ret t.
Proof.
  induction candidates as [|c rest IH]; intros w code t Hin; cbn [loop_trace load_loop] in *.
  - destruct Hin as [Hin | Hin]; inversion Hin.
  - unfold_monad.
    destruct (load_candidate lang_code force_reload c w) as [[[| | |]|e] w'];
      rewrite !elem_of_cons in Hin.
    + apply (IH w' code t). destruct Hin as [[? | ?] | [? | ?]]; try done; auto.
    + destruct Hin as [[[= _ <-] | H] | [[= _] | H]]; try done; inversion H.
    + destruct Hin as [[[= _] | H] | [[= _ <-] | H]]; try done; inversion H.
    + apply (IH w' code t). destruct Hin as [[? | ?] | [? | ?]]; try done; auto.
    + destruct Hin as [[? | H] | [? | H]]; try done; inversion H.
Qed.

Lemma load_trace_return (lang_code : string) (force_reload : bool) (w : world)
    (code : string) (t : tree) :
  (code, Ret (Unchanged t)) ∈ load_trace lang_code force_reload w ∨
  (code, Ret (Loaded t)) ∈ load_trace lang_code force_reload w →
  (load_messages lang_code force_reload w).1 = Ret t.
Proof.
  unfold load_trace, load_messages.
  rewrite (bind_run _ _ _ _ _ (ensure_cache_run w)), ensure_cache_run. cbn beta iota.
  set (w0 := with_cache _ w).
  destruct force_reload.
  - rewrite (bind_run _ _ w0 w0 (Ret None)) by done. cbn beta iota.
    change ((mret None : M (option tree)) w0) with (Ret (@None tree), w0). cbn beta iota.
    rewrite (bind_run _ _ w0 w0 (Ret (_settings w0))) by done.
    apply (loop_trace_return _ _ _ _ code).
  - destruct (cache_get lang_code w0) as [r w1] eqn:Hget.
    rewrite (bind_run _ _ _ _ _ Hget).
    destruct r as [[c|]|e];
      [intros [H | H]; inversion H | | intros [H | H]; inversion H].
    rewrite (bind_run _ _ w1 w1 (Ret (_settings w1))) by done.
    apply (loop_trace_return _ _ _ _ code).
Qed.

Section Asymmetry.

Variable format_ext : string → gmap string string → fmt_result.


End Asymmetry.


(** ** The validator *)

Lemma value_dict_ind (P : value → Prop) :
  (∀ v, (∀ d, v ≠ VDict d) → P v) →
  (∀ d, Forall (λ kv, P kv.2) d → P (VDict d)) →
  ∀ v, P v.
Proof.
  intros Hleaf Hdict. fix IH 1. intros [| b | n | s | l | d];
    try (apply Hleaf; discriminate).
  apply Hdict. induction d as [|[k v] d IHd]; constructor; [apply IH | exact IHd].
Qed.

(** [get_all_keys] follows the loop of the source: one item adds the keys
    of its nested mapping, or its own full key. *)
Lemma get_all_keys_nil (prefix : string) : get_all_keys [] prefix = ∅.
Proof. reflexivity. Qed.

Lemma get_all_keys_cons (k : string) (v : value) (rest : tree) (prefix : string) :
  get_all_keys ((k, v) :: rest) prefix =
    match v with
    | VDict d => get_all_keys d (join_key prefix k)
    | _ => {[ join_key prefix k ]}
    end ∪ get_all_keys rest prefix.
Proof. by destruct v. Qed.

Lemma keys_under_dict (d : tree) (fk : string) :
  keys_under (VDict d) fk =
    ⋃ (map (λ kv : string * value, keys_under kv.2 (join_key fk kv.1)) d).
Proof.
  induction d as [|[k v] d IH]; [done |].
  change (keys_under (VDict ((k, v) :: d)) fk)
    with (keys_under v (join_key fk k) ∪ keys_under (VDict d) fk).
  by rewrite IH.
Qed.

Lemma leaf_paths_dict (d : tree) :
  leaf_paths (VDict d) =
    List.concat (map (λ kv : string * value, map (cons kv.1) (leaf_paths kv.2)) d).
Proof.
  induction d as [|[k v] d IH]; [done |].
  change (leaf_paths (VDict ((k, v) :: d)))
    with (map (cons k) (leaf_paths v) ++ leaf_paths (VDict d))%list.
  by rewrite IH.
Qed.

Lemma append_assoc (a b c : string) : (a +:+ b) +:+ c = a +:+ (b +:+ c).
Proof.
  induction a as [|x a IH]; [done |].
  change (String x ((a +:+ b) +:+ c) = String x (a +:+ b +:+ c)). by rewrite IH.
Qed.

Lemma append_nil_r (a : string) : a +:+ "" = a.
Proof.
  induction a as [|x a IH]; [done |].
  change (String x (a +:+ "") = String x a). by rewrite IH.
Qed.

Lemma append_nonempty (a b : string) : a ≠ "" → a +:+ b ≠ "".
Proof. destruct a; [done | discriminate]. Qed.

Lemma dot_join_cons (k : string) (path : list string) :
  dot_join (k :: path) = k +:+ dot_suffix path.
Proof.
  revert k. induction path as [|k' path IH]; intros k.
  - simpl. by rewrite append_nil_r.
  - change (dot_join (k :: k' :: path)) with (k +:+ "." +:+ dot_join (k' :: path)).
    rewrite IH. reflexivity.
Qed.

Lemma join_key_nonempty (prefix k : string) :
  prefix ≠ "" → join_key prefix k = prefix +:+ "." +:+ k ∧ join_key prefix k ≠ "".
Proof.
  intros H. unfold join_key. rewrite (proj2 (str_truthy_spec prefix) H).
  split; [done | by apply append_nonempty].
Qed.

Lemma keys_under_spec (v : value) :
  ∀ fk, fk ≠ "" →
    keys_under v fk = list_to_set (map (λ path, fk +:+ dot_suffix path) (leaf_paths v)).
Proof.
  induction v as [v Hleaf | d IH] using value_dict_ind; intros fk Hfk.
  - destruct v; try (by destruct (Hleaf d));
      simpl; rewrite append_nil_r; by rewrite union_empty_r_L.
  - rewrite keys_under_dict, leaf_paths_dict.
    induction IH as [|[k v] d Hv _ IHd]; [done |].
    cbn [map List.concat fst snd]. rewrite union_list_cons, map_app, list_to_set_app_L.
    rewrite <- IHd. f_equal.
    destruct (join_key_nonempty fk k Hfk) as [Hj Hne].
    cbn [snd] in Hv. rewrite (Hv _ Hne), map_map. f_equal. apply map_ext. intros path.
    rewrite Hj. simpl. by rewrite !append_assoc.
Qed.

Lemma get_all_keys_flatten (d : tree) :
  (∀ k v, (k, v) ∈ d → k ≠ "") →
  get_all_keys d "" = flatten_paths d.
Proof.
  intros Hkeys. unfold get_all_keys, flatten_paths.
  rewrite keys_under_dict, leaf_paths_dict.
  induction d as [|[k v] d IH]; [done |].
  cbn [map List.concat fst snd]. rewrite union_list_cons, map_app, list_to_set_app_L.
  rewrite <- IH by (intros k' v' H; apply (Hkeys k' v'); by apply list_elem_of_further).
  f_equal.
  assert (Hk : k ≠ "") by (apply (Hkeys k v), list_elem_of_here).
  change (join_key "" k) with k.
  rewrite (keys_under_spec v k Hk), map_map. f_equal. apply map_ext. intros path.
  by rewrite dot_join_cons.
Qed.

Lemma validate_translations_empty (lang_code : string) (w w1 : world) :
  load_messages lang_code true w = (Ret [], w1) →
  validate_translations lang_code w
    = (Ret (mk_validation false [NoTranslationsFound lang_code] [] [] []), w1).
Proof.
  intros Hload. unfold validate_translations, validate_body. unfold_monad.
  by rewrite Hload.
Qed.

Lemma validate_translations_raises (lang_code : string) (w w1 : world) (e : exn) :
  load_messages lang_code true w = (Exc e, w1) →
  validate_translations lang_code w
    = (Ret (mk_validation false [ValidationError e] [] [] []), w1).
Proof.
  intros Hload. unfold validate_translations, validate_body. unfold_monad.
  by rewrite Hload.
Qed.

Lemma validate_translations_differences (lang_code : string) (w w1 w2 : world)
    (translations default_trans : tree) :
  load_messages lang_code true w = (Ret translations, w1) →
  translations ≠ [] →
  lang_code ≠ default_language (_settings w1) →
  load_messages (default_language (_settings w1)) false w1 = (Ret default_trans, w2) →
  (∀ k v, (k, v) ∈ translations → k ≠ "") →
  (∀ k v, (k, v) ∈ default_trans → k ≠ "") →
  ∃ r, validate_translations lang_code w = (Ret r, w2) ∧
       valid r = true ∧ errors r = [] ∧
       (∀ k, k ∈ missing_keys r ↔
             k ∈ flatten_paths default_trans ∧ k ∉ flatten_paths translations) ∧
       (∀ k, k ∈ extra_keys r ↔
             k ∈ flatten_paths translations ∧ k ∉ flatten_paths default_trans).
Proof.
  intros Hload Hne Hlang Hdef Hk1 Hk2.
  unfold validate_translations, validate_body. unfold_monad. rewrite Hload.
  destruct translations as [|kv rest]; [done |].
  cbn [truthy]. rewrite bool_decide_true by done. rewrite Hdef.
  eexists. split; [reflexivity |]. cbn [valid errors missing_keys extra_keys].
  rewrite !get_all_keys_flatten by done.
  split_and!; try done; intros k; rewrite elem_of_elements; set_solver.
Qed.

(** C8, where the code departs from it: a top-level key that is the empty
    string loses its dot.  The tree that maps the empty key to {b: "1"}
    has the one full key path [".b"], but [get_all_keys] yields ["b"], the
    same as for {b: "1"}; so validating the first against the second
    reports no missing and no extra key, where the sets of dot-joined
    paths differ by ["b"] and [".b"]. *)
Theorem validate_empty_key_collapses_prefix :
  let target : tree := [("", VDict [("b", VStr "1")])] in
  let reference : tree := [("b", VStr "1")] in
  let w := initial_world files_empty_key no_dirs frozen_clock in
  get_all_keys target "" = {[ "b" ]} ∧
  flatten_paths target = {[ ".b" ]} ∧
  flatten_paths reference = {[ "b" ]} ∧
  elements (flatten_paths reference ∖ flatten_paths target) = ["b"] ∧
  elements (flatten_paths target ∖ flatten_paths reference) = [".b"] ∧
  (load_messages "de" true w).1 = Ret target ∧
  (load_messages "en" false (load_messages "de" true w).2).1 = Ret reference ∧
  (validate_translations "de" w).1 = Ret (mk_validation true [] [] [] []).
Proof.
  intros target reference w. split_and!; vm_compute; reflexivity.
Qed.

Lemma validate_reports_missing_key :
  let target : tree := [("a", VDict [("b", VStr "1")])] in
  let reference : tree := [("a", VDict [("b", VStr "1"); ("c", VStr "2")])] in
  let w := initial_world files_missing_key no_dirs frozen_clock in
  get_all_keys reference "" = {[ "a.b"; "a.c" ]} ∧
  flatten_paths reference = {[ "a.b"; "a.c" ]} ∧
  (validate_translations "de" w).1
    = Ret (mk_validation true [] [KeysMissing 1 "en"] ["a.c"] []).
Proof.
  intros target reference w. split_and!; vm_compute; reflexivity.
Qed.

(** * Further properties *)

(** ** The cache object: expiry is lazy and local *)

(** X1: a [get] touches the entry of its own key only.  It leaves the
    TTL and the entries of every other key as they are, adds no key, and
    when it returns a tree the cache is unchanged: the timestamp is not
    renewed by a read, and entries of other keys stay, expired or not. *)
Theorem cache_get_is_local (key other : string) (now : Z) (c : TranslationCache.t) :
  let c' := (TranslationCache.get key now c).2 in
  TranslationCache._ttl c' = TranslationCache._ttl c ∧
  (other ≠ key →
     TranslationCache._cache c' !! other = TranslationCache._cache c !! other ∧
     TranslationCache._timestamps c' !! other = TranslationCache._timestamps c !! other) ∧
  dom (TranslationCache._cache c') ⊆ dom (TranslationCache._cache c) ∧
  (∀ v, (TranslationCache.get key now c).1 = Ret (Some v) →
        c' = c ∧ TranslationCache._cache c !! key = Some v).
Proof.
  intros c'. subst c'. unfold TranslationCache.get.
  destruct (TranslationCache._cache c !! key) as [v|] eqn:Hv; [|by split_and!].
  destruct (TranslationCache._timestamps c !! key) as [stamp|]; [|by split_and!].
  destruct (_ <? _); cbn [fst snd].
  - split_and!; [done | | | done].
    + intros Hne. simpl. by rewrite !lookup_delete_ne.
    + simpl. rewrite dom_delete_L. set_solver.
  - split_and!; try done. by intros v' [= <-].
Qed.

Lemma cache_get_is_local_witness :
  let c := TranslationCache.set "de" [("k", VStr "v")] 5
             (TranslationCache.set "en" [("k", VStr "w")] 0 (TranslationCache.init 1)) in
  "de" ≠ "en" ∧
  (TranslationCache.get "en" 70000000 c).1 = Ret None ∧
  TranslationCache._cache (TranslationCache.get "en" 70000000 c).2 !! "de"
    = Some [("k", VStr "v")].
Proof.
  intros c.
  assert (Hne : "de" ≠ "en") by discriminate.
  split; [exact Hne |]. split; [vm_compute; reflexivity |].
  destruct (cache_get_is_local "en" "de" 70000000 c) as (_ & H & _).
  rewrite (proj1 (H Hne)). vm_compute. reflexivity.
Defined.


(** ** The loader: what one iteration does to the state *)

Lemma source_of_with_events (evs : list io_event) (w : world) (code : string) :
  source_of (with_events evs w) code = source_of w code.
Proof. reflexivity. Qed.

Lemma reuse_blocked_with_events (evs : list io_event) (w : world) (force_reload : bool)
    (code : string) :
  reuse_blocked w force_reload code → reuse_blocked (with_events evs w) force_reload code.
Proof. done. Qed.

Lemma cache_get_io (key : string) (w : world) :
  io_log (cache_get key w).2 = io_log w.
Proof.
  unfold cache_get. destruct w as [s [c|] fw f d k n io]; simpl; [|done].
  destruct (TranslationCache.get _ _ _). by case_decide.
Qed.

Lemma check_unchanged_io (force_reload : bool) (code : string) (mtime : Z) (w : world) :
  io_log (check_unchanged force_reload code mtime w).2 = io_log w.
Proof.
  apply (inv_check_unchanged (λ w', io_log w' = io_log w)); [|done].
  intros key w' H. by rewrite cache_get_io.
Qed.

Lemma read_and_store_io (lang_code code p : string) (mtime : Z) (w : world) :
  io_log (read_and_store lang_code code p mtime w).2 = (io_log w ++ [EvRead p])%list.
Proof.
  unfold read_and_store. rewrite (bind_run _ _ _ _ _ (safe_load_run p w)).
  destruct (src_load (files w p)) as [| |v]; [done | done |]. cbn beta iota.
  destruct (if truthy v then v else VDict []); try done.
  unfold cache_set. unfold_monad. simpl. by destruct (_cache w).
Qed.

Lemma try_file_io (lang_code : string) (force_reload : bool) (code p : string) (w : world) :
  ∃ evs, io_log (try_file lang_code force_reload code p w).2 = (io_log w ++ evs)%list ∧
         ∀ e, e ∈ evs → event_path e = p.
Proof.
  unfold try_file. rewrite (bind_run _ _ _ _ _ (path_mtime_run p w)).
  destruct (src_mtime (files w p)) as [mtime|]; cbn beta iota.
  2:{ exists [EvStat p]. split; [done |]. by intros e ->%list_elem_of_singleton. }
  set (w1 := with_events [EvStat p] w).
  pose proof (check_unchanged_io force_reload code mtime w1) as Hio.
  unfold_monad.
  destruct (check_unchanged force_reload code mtime w1) as [[[c|]|e] w2]; cbn [fst snd] in *.
  - exists [EvStat p]. split; [by rewrite Hio |]. by intros e ->%list_elem_of_singleton.
  - exists [EvStat p; EvRead p]. split.
    + rewrite read_and_store_io, Hio. subst w1; simpl. by rewrite <- app_assoc.
    + intros e He. apply elem_of_cons in He as [-> | ->%list_elem_of_singleton]; done.
  - exists [EvStat p]. split; [by rewrite Hio |]. by intros e' ->%list_elem_of_singleton.
Qed.

(** One iteration only touches the file of its candidate. *)
Lemma load_candidate_log (lang_code : string) (force_reload : bool) (code : string)
    (w : world) :
  ∃ evs, io_log (load_candidate lang_code force_reload code w).2 = (io_log w ++ evs)%list ∧
         ∀ e, e ∈ evs → event_path e = file_path (_settings w) code.
Proof.
  unfold load_candidate. rewrite (bind_run _ _ w w (Ret (_settings w))) by done.
  set (p := file_path (_settings w) code).
  rewrite (bind_run _ _ _ _ _ (path_exists_run p w)).
  destruct (src_exists (files w p)); cbn beta iota;
    try (exists [EvExists p]; split; [done | by intros e ->%list_elem_of_singleton]).
  set (w1 := with_events [EvExists p] w).
  destruct (try_file_io lang_code force_reload code p w1) as (evs & Hio & Hevs).
  unfold_monad.
  destruct (try_file lang_code force_reload code p w1) as [r w2]; cbn [fst snd] in *.
  exists (EvExists p :: evs). split.
  - rewrite Hio. subst w1; simpl. by rewrite <- app_assoc.
  - intros e He. apply elem_of_cons in He as [-> | He]; [done | by apply Hevs].
Qed.

(** An iteration raises only when the probe of its file does. *)
Lemma load_candidate_raises (lang_code : string) (force_reload : bool) (code : string)
    (w : world) (e : exn) :
  (load_candidate lang_code force_reload code w).1 = Exc e →
  e = OSError ∧ src_exists (source_of w code) = ProbeError.
Proof.
  unfold load_candidate, source_of. rewrite (bind_run _ _ w w (Ret (_settings w))) by done.
  set (p := file_path (_settings w) code).
  rewrite (bind_run _ _ _ _ _ (path_exists_run p w)).
  destruct (src_exists (files w p)); cbn beta iota; [done | | by intros [= <-]].
  unfold_monad. by destruct (try_file _ _ _ _ _) as [[o|e'] w2].
Qed.

Lemma cache_kept_get (key : string) : preserves (λ w, is_Some (_cache w)) (cache_get key).
Proof.
  intros [s [c|] fw f d k n io] H; unfold cache_get; simpl; [|done].
  destruct (TranslationCache.get _ _ _). by case_decide.
Qed.

Lemma cache_kept_set (key : string) (v : tree) :
  preserves (λ w, is_Some (_cache w)) (cache_set key v).
Proof. by intros [s [c|] fw f d k n io] H. Qed.

Lemma cache_kept_ensure : preserves (λ w, is_Some (_cache w)) _ensure_cache.
Proof. by intros [s [c|] fw f d k n io] H. Qed.

Lemma cache_kept_load_candidate (lang_code : string) (force_reload : bool) (code : string) :
  preserves (λ w, is_Some (_cache w)) (load_candidate lang_code force_reload code).
Proof.
  apply (inv_load_candidate (λ w, is_Some (_cache w)) (λ _, True));
    auto using cache_kept_get, cache_kept_set.
Qed.

(** An iteration that ends in [continue] adds no cache entry. *)
Lemma read_and_store_continue (avoid lang_code code p : string) (mtime : Z) (w : world) :
  (∀ data, (read_and_store lang_code code p mtime w).1 ≠ Ret (Loaded data)) →
  not_cached avoid w → not_cached avoid (read_and_store lang_code code p mtime w).2.
Proof.
  unfold read_and_store. rewrite (bind_run _ _ _ _ _ (safe_load_run p w)).
  destruct (src_load (files w p)) as [| |v]; [done | done |]. cbn beta iota.
  destruct (if truthy v then v else VDict []) as [| | | | |data]; try done.
  unfold cache_set. unfold_monad. simpl.
  destruct (_cache w) eqn:Hc; simpl; [|done].
  intros H. by destruct (H data).
Qed.

Lemma try_file_continue (avoid lang_code : string) (force_reload : bool) (code p : string)
    (w : world) :
  (∀ data, (try_file lang_code force_reload code p w).1 ≠ Ret (Loaded data)) →
  not_cached avoid w → not_cached avoid (try_file lang_code force_reload code p w).2.
Proof.
  unfold try_file. rewrite (bind_run _ _ _ _ _ (path_mtime_run p w)).
  destruct (src_mtime (files w p)) as [mtime|]; [|done]. cbn beta iota.
  set (w1 := with_events [EvStat p] w). intros Hr Hw.
  assert (Hw1 : not_cached avoid w1) by done.
  pose proof (inv_check_unchanged (not_cached avoid) (not_cached_get avoid)
                force_reload code mtime w1 Hw1) as Hw2.
  revert Hr. unfold_monad.
  destruct (check_unchanged force_reload code mtime w1) as [[[c|]|e] w2];
    cbn [fst snd] in *; [done | | done].
  intros Hr. by apply read_and_store_continue.
Qed.

Lemma load_candidate_continue (avoid lang_code : string) (force_reload : bool)
    (code : string) (w : world) :
  (∀ data, (load_candidate lang_code force_reload code w).1 ≠ Ret (Loaded data)) →
  not_cached avoid w → not_cached avoid (load_candidate lang_code force_reload code w).2.
Proof.
  unfold load_candidate. rewrite (bind_run _ _ w w (Ret (_settings w))) by done.
  set (p := file_path (_settings w) code).
  rewrite (bind_run _ _ _ _ _ (path_exists_run p w)).
  destruct (src_exists (files w p)); cbn beta iota; [done | | done].
  set (w1 := with_events [EvExists p] w). intros Hr Hw.
  assert (Hw1 : not_cached avoid w1) by done.
  pose proof (try_file_continue avoid lang_code force_reload code p w1) as Htry.
  revert Hr. unfold_monad.
  destruct (try_file lang_code force_reload code p w1) as [[o|e] w2]; cbn [fst snd] in *.
  - intros Hr. apply Htry; [|done]. intros data Heq. apply (Hr data).
    simpl. by injection Heq as ->.
  - intros _. by apply Htry.
Qed.

(** A cache hit: the tree is returned and only the clock has been read. *)
Lemma load_messages_fresh (w : world) (lang_code : string) (v : tree) :
  fresh_entry w lang_code v → load_messages lang_code false w = (Ret v, with_tick w).
Proof.
  intros (c & stamp & Hc & Hv & Hs & Hfresh).
  unfold load_messages. unfold_monad. rewrite ensure_cache_run, Hc. simpl.
  unfold cache_get, TranslationCache.get. simpl. rewrite Hv, Hs.
  destruct (Z.ltb_spec (TranslationCache._ttl c) (clock w (ticks w) - stamp)); [lia |].
  rewrite decide_True by eauto.
  f_equal. destruct w; simpl in *. by subst.
Qed.

Lemma cache_get_none_uncached (key : string) (w w' : world) :
  cache_get key w = (Ret None, w') →
  (key ∉ cached_langs w') ∧ _settings w' = _settings w ∧ files w' = files w.
Proof.
  unfold cache_get, cached_langs, TranslationCache.get.
  destruct w as [s [c|] fw f d k n io]; simpl; [|discriminate].
  destruct (TranslationCache._cache c !! key) as [v|] eqn:Hv.
  - destruct (TranslationCache._timestamps c !! key); [|discriminate].
    destruct (_ <? _); [|discriminate].
    case_decide; intros [= <-]; simpl; rewrite dom_delete_L; split_and!; set_solver.
  - case_decide; intros [= <-]; simpl; split_and!; try done; by apply not_elem_of_dom.
Qed.

Lemma loop_trace_requested (lang_code : string) (force_reload : bool)
    (candidates : list string) :
  ∀ (w : world) (o : candidate_outcome),
    force_reload = true ∨ not_cached lang_code w →
    (lang_code, Ret o) ∈ loop_trace lang_code force_reload candidates w →
    o = FileNotFound ∨ o = Failed ∨
    ∃ v data, o = Loaded data ∧ src_load (source_of w lang_code) = Parsed v ∧
              (if truthy v then v else VDict []) = VDict data.
Proof.
  induction candidates as [|code rest IH]; intros w o Hw Hin;
    cbn [loop_trace] in Hin; [inversion Hin |].
  pose proof (load_candidate_continue lang_code lang_code force_reload code w) as Hcont.
  destruct (load_candidate_frame lang_code force_reload code w) as [Hs Hf].
  destruct (load_candidate lang_code force_reload code w) as [r w'] eqn:Hstep.
  cbn [fst snd] in *.
  apply elem_of_cons in Hin as [[= <- <-] | Hin].
  - apply (load_candidate_outcome lang_code force_reload lang_code w); [exact Hw |].
    by rewrite Hstep.
  - assert (Hr : r = Ret FileNotFound ∨ r = Ret Failed).
    { destruct r as [[| | |]|]; auto; inversion Hin. }
    assert (Hrest : (lang_code, Ret o) ∈ loop_trace lang_code force_reload rest w')
      by (by destruct Hr as [-> | ->]).
    assert (Hw' : force_reload = true ∨ not_cached lang_code w').
    { destruct Hw as [? | Hw]; [by left | right].
      apply Hcont; [|done]. by destruct Hr as [-> | ->]. }
    destruct (IH w' o Hw' Hrest) as [? | [? | (v & data & ? & Hv & ?)]]; auto.
    right; right. exists v, data. split_and!; try done.
    unfold source_of in *. by rewrite <- Hs, <- Hf.
Qed.

(** X3: the modification-time shortcut never applies to the requested
    code itself.  When [load_messages] gets past its cache check, the
    requested code has no cache entry left, so each iteration that tries
    this code ends with the file missing, with a failure, or with the tree
    just read and parsed from its file; never with a reused tree. *)
Theorem requested_code_is_never_reused (w : world) (lang_code : string)
    (force_reload : bool) (o : candidate_outcome) :
  (lang_code, Ret o) ∈ load_trace lang_code force_reload w →
  (∀ t, o ≠ Unchanged t) ∧
  (∀ data, o = Loaded data →
     ∃ v, src_load (source_of w lang_code) = Parsed v ∧
          (if truthy v then v else VDict []) = VDict data).
Proof.
  unfold load_trace. rewrite ensure_cache_run.
  set (w0 := with_cache _ w).
  assert (Hstep : ∃ r w1,
            (if force_reload then mret None else cache_get lang_code) w0 = (r, w1) ∧
            (r = Ret None → (force_reload = true ∨ not_cached lang_code w1) ∧
                            _settings w1 = _settings w ∧ files w1 = files w)).
  { destruct force_reload.
    - exists (Ret None), w0. split; [done |]. intros _. split_and!; auto.
    - destruct (cache_get lang_code w0) as [r w1] eqn:Hget. exists r, w1.
      split; [done |]. intros ->.
      destruct (cache_get_none_uncached _ _ _ Hget) as (H1 & H2 & H3).
      split_and!; [by right | done | done]. }
  destruct Hstep as (r & w1 & -> & Hr).
  destruct r as [[c|]|e]; [intros H; inversion H | | intros H; inversion H].
  destruct (Hr eq_refl) as (Hw1 & Hs & Hf). intros Hin.
  destruct (loop_trace_requested lang_code force_reload _ w1 o Hw1 Hin)
    as [-> | [-> | (v & data & -> & Hv & Hd)]]; split; try done.
  intros data' [= <-]. exists v. split; [|done].
  unfold source_of in *. by rewrite <- Hs, <- Hf.
Qed.

Lemma requested_code_is_never_reused_witness :
  let w := (load_messages "en" false (initial_world files_en no_dirs slow_clock)).2 in
  _file_watchers w !! "en" = src_mtime (source_of w "en") ∧
  "en" ∈ cached_langs w ∧
  ("en", Ret (Loaded sample_tree)) ∈ load_trace "en" false w ∧
  ∀ t, Loaded sample_tree ≠ Unchanged t.
Proof.
  intros w.
  assert (Hin : ("en", Ret (Loaded sample_tree)) ∈ load_trace "en" false w)
    by (vm_compute; apply list_elem_of_here).
  split_and!; [vm_compute; reflexivity | | exact Hin |].
  - unfold cached_langs. apply elem_of_dom. eexists. vm_compute. reflexivity.
  - exact (proj1 (requested_code_is_never_reused w "en" false (Loaded sample_tree) Hin)).
Defined.

(** ** The loader: the first usable candidate *)

Lemma load_candidate_unusable_log (lang_code : string) (force_reload : bool) (code : string)
    (w : world) :
  unusable (source_of w code) →
  reuse_blocked w force_reload code →
  ∃ o evs,
    load_candidate lang_code force_reload code w = (Ret o, with_events evs w) ∧
    (o = FileNotFound ∨ o = Failed) ∧
    ∀ e, e ∈ evs → event_path e = file_path (_settings w) code.
Proof.
  intros Hsrc Hblocked.
  destruct (load_candidate_unusable lang_code force_reload code w Hsrc Hblocked)
    as (o & evs & Hrun & Ho).
  destruct (load_candidate_log lang_code force_reload code w) as (evs' & Hio & Hevs).
  rewrite Hrun in Hio. simpl in Hio. apply app_inv_head in Hio as ->.
  by exists o, evs'.
Qed.

Lemma load_loop_first_usable (lang_code : string) (force_reload : bool)
    (pre : list string) (code : string) (post : list string) (mtime : Z) (data : tree) :
  ∀ (w : world) (c : TranslationCache.t),
    _cache w = Some c →
    (∀ k, k ∈ pre → unusable (source_of w k) ∧ reuse_blocked w force_reload k) →
    usable (source_of w code) mtime data →
    reuse_blocked w force_reload code →
    ∃ evs,
      load_loop lang_code force_reload (pre ++ code :: post)%list w =
        (Ret data,
         with_file_watchers (<[code := mtime]> (_file_watchers w))
           (with_tick
              (with_cache (Some (TranslationCache.set lang_code data (clock w (ticks w)) c))
                 (with_events evs w)))) ∧
      ∀ e, e ∈ evs →
           ∃ k, k ∈ (pre ++ [code])%list ∧ event_path e = file_path (_settings w) k.
Proof.
  induction pre as [|k pre IH]; intros w c Hc Hpre Huse Hblocked.
  - exists [EvExists (file_path (_settings w) code); EvStat (file_path (_settings w) code);
            EvRead (file_path (_settings w) code)].
    split.
    + cbn [app load_loop].
      by rewrite (bind_run _ _ _ _ _
                    (load_candidate_usable lang_code force_reload code w c mtime data
                       Huse Hblocked Hc)).
    + intros e He. exists code. split; [apply list_elem_of_here |].
      repeat (apply elem_of_cons in He as [-> | He]; [done |]). inversion He.
  - destruct (Hpre k) as [Hk1 Hk2]; [apply list_elem_of_here |].
    destruct (load_candidate_unusable_log lang_code force_reload k w Hk1 Hk2)
      as (o & evs1 & Hrun & Ho & Hevs1).
    destruct (IH (with_events evs1 w) c) as (evs2 & Hloop & Hevs2); try done.
    { intros k' Hk'. apply Hpre. by apply list_elem_of_further. }
    exists (evs1 ++ evs2)%list. split.
    + cbn [app load_loop]. rewrite (bind_run _ _ _ _ _ Hrun).
      assert (Hskip : ∀ T (k1 k2 : tree → T) (k0 : T),
                match o with Unchanged t => k1 t | Loaded d => k2 d | _ => k0 end = k0)
        by (intros; by destruct Ho as [-> | ->]).
      rewrite Hskip, Hloop. by rewrite with_events_app.
    + intros e He. apply elem_of_app in He as [He | He].
      * exists k. split; [apply list_elem_of_here | by apply Hevs1].
      * destruct (Hevs2 e He) as (k' & Hk' & Hp). exists k'.
        split; [by apply list_elem_of_further | done].
Qed.

Lemma load_messages_first_usable (w : world) (lang_code : string) (force_reload : bool)
    (pre : list string) (code : string) (post : list string) (mtime : Z) (data : tree) :
  lang_code :: fallback_languages (_settings w) = (pre ++ code :: post)%list →
  (∀ k, k ∈ pre → unusable (source_of w k) ∧ reuse_blocked w force_reload k) →
  usable (source_of w code) mtime data →
  reuse_blocked w force_reload code →
  force_reload = true ∨ cache_miss w lang_code →
  let w1 := (load_messages lang_code force_reload w).2 in
  (load_messages lang_code force_reload w).1 = Ret data ∧
  (∃ stamp, holds_entry w1 lang_code data stamp) ∧
  _file_watchers w1 = <[code := mtime]> (_file_watchers w) ∧
  cached_langs w1 = {[lang_code]} ∪ cached_langs w ∧
  ∃ evs, io_log w1 = (io_log w ++ evs)%list ∧
         ∀ e, e ∈ evs →
              ∃ k, k ∈ (pre ++ [code])%list ∧ event_path e = file_path (_settings w) k.
Proof.
  intros Hchain Hpre Huse Hblocked Hmiss w1.
  destruct (load_messages_enters_loop w lang_code force_reload Hmiss)
    as (w0 & c0 & Hc0 & Hs & Hf & Hfw & Hio & Hsub & HX0 & Hunion & Hrun).
  assert (Hsrc : ∀ k, source_of w0 k = source_of w k).
  { intros k. unfold source_of. by rewrite Hs, Hf. }
  assert (Hb : ∀ k, reuse_blocked w force_reload k → reuse_blocked w0 force_reload k).
  { intros k [? | [Hn | Hm]]; [by left | right; left | right; right].
    - set_solver.
    - by rewrite Hsrc, Hfw. }
  destruct (load_loop_first_usable lang_code force_reload pre code post mtime data w0 c0)
    as (evs & Hloop & Hevs); try done.
  { intros k Hk. destruct (Hpre k Hk). split; [by rewrite Hsrc | by apply Hb]. }
  { by rewrite Hsrc. }
  { by apply Hb. }
  subst w1. rewrite Hrun, Hchain, Hloop. cbn [fst snd]. split_and!.
  - done.
  - eexists _, _. split_and!; [reflexivity | apply lookup_insert_eq | apply lookup_insert_eq].
  - simpl. by rewrite Hfw.
  - unfold cached_langs in *. simpl. rewrite dom_insert_L.
    rewrite Hc0 in Hunion. exact Hunion.
  - exists evs. split; [simpl; by rewrite Hio |].
    intros e He. destruct (Hevs e He) as (k & Hk & Hp). exists k. by rewrite <- Hs.
Qed.

(** X4: with any fallback chain, [load_messages] returns the tree of the
    first candidate whose source parses to a mapping, when every candidate
    before it is absent or invalid, the cache check for the requested code
    misses or reload is forced, and the modification-time check has
    nothing to reuse for these candidates.  The tree is stored under the
    requested code, the modification time under the candidate, and the
    file-system accesses of the call all concern the files of these
    candidates: no later fallback is looked at. *)
Theorem first_usable_candidate_wins (w : world) (lang_code : string) (force_reload : bool)
    (pre : list string) (code : string) (post : list string) (mtime : Z) (data : tree) :
  lang_code :: fallback_languages (_settings w) = (pre ++ code :: post)%list →
  (∀ k, k ∈ pre → unusable (source_of w k) ∧ reuse_blocked w force_reload k) →
  usable (source_of w code) mtime data →
  reuse_blocked w force_reload code →
  force_reload = true ∨ cache_miss w lang_code →
  let w1 := (load_messages lang_code force_reload w).2 in
  (load_messages lang_code force_reload w).1 = Ret data ∧
  (∃ stamp, holds_entry w1 lang_code data stamp) ∧
  _file_watchers w1 = <[code := mtime]> (_file_watchers w) ∧
  cached_langs w1 = {[lang_code]} ∪ cached_langs w ∧
  ∃ evs, io_log w1 = (io_log w ++ evs)%list ∧
         ∀ e, e ∈ evs →
              ∃ k, k ∈ (pre ++ [code])%list ∧ event_path e = file_path (_settings w) k.
Proof. apply load_messages_first_usable. Qed.

Lemma first_usable_candidate_wins_witness :
  let w := with_settings (mk_settings "translation/messages" ["fr"; "en"; "de"] "en" 30)
             (initial_world files_en no_dirs frozen_clock) in
  let w1 := (load_messages "es" false w).2 in
  (load_messages "es" false w).1 = Ret sample_tree ∧
  _file_watchers w1 = <[ "en" := 1700000000 ]> (_file_watchers w) ∧
  ∃ evs, io_log w1 = (io_log w ++ evs)%list ∧
         ∀ e, e ∈ evs →
              ∃ k, k ∈ ["es"; "fr"; "en"] ∧ event_path e = file_path (_settings w) k.
Proof.
  intros w w1.
  assert (Hchain : "es" :: fallback_languages (_settings w)
                   = (["es"; "fr"] ++ "en" :: ["de"])%list) by reflexivity.
  assert (Hpre : ∀ k, k ∈ ["es"; "fr"] →
                      unusable (source_of w k) ∧ reuse_blocked w false k).
  { intros k Hk. split; [|right; left; apply not_elem_of_empty].
    apply elem_of_cons in Hk as [-> | Hk]; [left; reflexivity |].
    apply list_elem_of_singleton in Hk as ->. left; reflexivity. }
  assert (Huse : usable (source_of w "en") 1700000000 sample_tree).
  { split_and!; [reflexivity | reflexivity |].
    exists (VDict sample_tree). split; reflexivity. }
  assert (Hb : reuse_blocked w false "en") by (right; left; apply not_elem_of_empty).
  assert (Hmiss : cache_miss w "es") by exact I.
  destruct (first_usable_candidate_wins w "es" false ["es"; "fr"] "en" ["de"] 1700000000
              sample_tree Hchain Hpre Huse Hb (or_intror Hmiss))
    as (Hret & _ & Hfw & _ & Hlog).
  by split_and!.
Defined.

Lemma load_messages_own_file (w : world) (lang_code : string) (force_reload : bool)
    (mtime : Z) (data : tree) :
  usable (source_of w lang_code) mtime data →
  force_reload = true ∨ lang_code ∉ cached_langs w →
  let w1 := (load_messages lang_code force_reload w).2 in
  (load_messages lang_code force_reload w).1 = Ret data ∧
  _settings w1 = _settings w ∧ files w1 = files w ∧
  (∃ stamp, holds_entry w1 lang_code data stamp) ∧
  _file_watchers w1 = <[lang_code := mtime]> (_file_watchers w) ∧
  cached_langs w1 = {[lang_code]} ∪ cached_langs w ∧
  io_log w1 = (io_log w ++ [EvExists (file_path (_settings w) lang_code);
                            EvStat (file_path (_settings w) lang_code);
                            EvRead (file_path (_settings w) lang_code)])%list.
Proof.
  intros Huse Hmiss w1.
  assert (Hmiss' : force_reload = true ∨ cache_miss w lang_code).
  { destruct Hmiss as [? | Hn]; [by left | right].
    unfold cache_miss, cached_langs in *. destruct (_cache w) as [c|]; [|done].
    apply not_elem_of_dom in Hn. by rewrite Hn. }
  destruct (load_messages_enters_loop w lang_code force_reload Hmiss')
    as (w0 & c0 & Hc0 & Hs & Hf & Hfw & Hio & Hsub & HX0 & Hunion & Hrun).
  destruct (load_messages_frame lang_code force_reload w) as [Hs1 Hf1].
  assert (Hb : reuse_blocked w0 force_reload lang_code).
  { destruct HX0 as [? | ?]; [by left | right; by left]. }
  assert (Huse0 : usable (source_of w0 lang_code) mtime data).
  { unfold source_of. by rewrite Hs, Hf. }
  subst w1. split_and!; [| exact Hs1 | exact Hf1 | | | |];
    rewrite Hrun; cbn [load_loop];
    rewrite (bind_run _ _ _ _ _
               (load_candidate_usable lang_code force_reload lang_code w0 c0 mtime data
                  Huse0 Hb Hc0)); cbn beta iota.
  - done.
  - eexists _, _. split_and!; [reflexivity | apply lookup_insert_eq | apply lookup_insert_eq].
  - simpl. by rewrite Hfw.
  - unfold cached_langs in *. simpl. rewrite dom_insert_L.
    rewrite Hc0 in Hunion. exact Hunion.
  - simpl. by rewrite Hio, Hs.
Qed.


(** ** The loader: reuse *)

Section CacheHit.

Variable format_ext : string → gmap string string → fmt_result.


End CacheHit.


Lemma check_unchanged_reuses (code : string) (w : world) (c : TranslationCache.t)
    (mtime stamp : Z) (v : tree) :
  _cache w = Some c →
  _file_watchers w !! code = Some mtime →
  TranslationCache._cache c !! code = Some v →
  TranslationCache._timestamps c !! code = Some stamp →
  clock w (ticks w) ≤ stamp + TranslationCache._ttl c →
  v ≠ [] →
  check_unchanged false code mtime w = (Ret (Some v), with_tick w).
Proof.
  intros Hc Hfw Hv Hs Hfresh Hne. unfold check_unchanged.
  rewrite (bind_run _ _ w w (Ret (_file_watchers w))) by done. cbn beta iota.
  rewrite bool_decide_true by done. cbn [andb negb].
  unfold cache_get, TranslationCache.get. unfold_monad. rewrite Hc, Hv, Hs.
  destruct (Z.ltb_spec (TranslationCache._ttl c) (clock w (ticks w) - stamp)); [lia |].
  rewrite decide_True by eauto.
  destruct v as [|kv v]; [done |]. cbn [truthy].
  f_equal. destruct w; simpl in *. by subst.
Qed.

Lemma load_candidate_unchanged (lang_code code : string) (w : world)
    (c : TranslationCache.t) (mtime stamp : Z) (v : tree) :
  _cache w = Some c →
  src_exists (source_of w code) = Present →
  src_mtime (source_of w code) = Some mtime →
  _file_watchers w !! code = Some mtime →
  TranslationCache._cache c !! code = Some v →
  TranslationCache._timestamps c !! code = Some stamp →
  clock w (ticks w) ≤ stamp + TranslationCache._ttl c →
  v ≠ [] →
  load_candidate lang_code false code w =
    (Ret (Unchanged v),
     with_tick (with_events [EvExists (file_path (_settings w) code);
                             EvStat (file_path (_settings w) code)] w)).
Proof.
  unfold source_of. intros Hc Hex Hm Hfw Hv Hs Hfresh Hne.
  unfold load_candidate. rewrite (bind_run _ _ w w (Ret (_settings w))) by done.
  set (p := file_path (_settings w) code) in *.
  rewrite (bind_run _ _ _ _ _ (path_exists_run p w)). rewrite Hex. cbn beta iota.
  set (w1 := with_events [EvExists p] w).
  assert (Htry : try_file lang_code false code p w1 =
            (Ret (Unchanged v), with_tick (with_events [EvExists p; EvStat p] w))).
  { unfold try_file. rewrite (bind_run _ _ _ _ _ (path_mtime_run p w1)).
    change (files w1 p) with (files w p). rewrite Hm. cbn beta iota.
    set (w2 := with_events [EvStat p] w1).
    rewrite (bind_run _ _ _ _ _
               (check_unchanged_reuses code w2 c mtime stamp v Hc Hfw Hv Hs Hfresh Hne)).
    cbn beta iota. subst w2 w1. unfold_monad.
    unfold with_tick, with_events; simpl. by rewrite <- app_assoc. }
  by rewrite (bind_run _ _ _ _ _ (attempt_run _ _ _ _ Htry)).
Qed.

Lemma load_loop_skips_absent (lang_code : string) (force_reload : bool)
    (pre rest : list string) :
  ∀ w : world,
    (∀ k, k ∈ pre → src_exists (source_of w k) = Absent) →
    load_loop lang_code force_reload (pre ++ rest)%list w =
      load_loop lang_code force_reload rest
        (with_events (map (λ k, EvExists (file_path (_settings w) k)) pre) w).
Proof.
  induction pre as [|k pre IH]; intros w Habs.
  - simpl. f_equal. unfold with_events. destruct w; simpl. by rewrite app_nil_r.
  - cbn [app load_loop map].
    rewrite (bind_run _ _ _ _ _
               (load_candidate_absent lang_code force_reload k w
                  (Habs k ltac:(apply list_elem_of_here)))).
    cbn beta iota. rewrite IH.
    + by rewrite with_events_app.
    + intros k' Hk'. apply Habs. by apply list_elem_of_further.
Qed.

(** X6: the modification-time shortcut.  When the requested code has no
    cache entry, the files of the candidates before [code] are absent, and
    [code] has an unchanged file (its modification time is the recorded
    one) and a non-empty cached tree within its TTL window, then
    [load_messages] returns that cached tree after probing the earlier
    files and probing and inspecting the file of [code].  No file is
    read, and the cache and the recorded modification times stay as they
    were: nothing is stored under the requested code. *)
Theorem unchanged_fallback_is_reused (w : world) (lang_code : string)
    (pre : list string) (code : string) (post : list string) (mtime : Z) (v : tree) :
  lang_code :: fallback_languages (_settings w) = (pre ++ code :: post)%list →
  lang_code ∉ cached_langs w →
  (∀ k, k ∈ pre → src_exists (source_of w k) = Absent) →
  src_exists (source_of w code) = Present →
  src_mtime (source_of w code) = Some mtime →
  _file_watchers w !! code = Some mtime →
  fresh_entry w code v →
  v ≠ [] →
  load_messages lang_code false w =
    (Ret v,
     with_tick
       (with_events
          (map (λ k, EvExists (file_path (_settings w) k)) pre ++
           [EvExists (file_path (_settings w) code); EvStat (file_path (_settings w) code)])
          w)).
Proof.
  intros Hchain Hnot Habs Hex Hm Hfw (c & stamp & Hc & Hv & Hs & Hfresh) Hne.
  unfold load_messages.
  assert (Hens : _ensure_cache w = (Ret tt, w)) by (unfold _ensure_cache; by rewrite Hc).
  rewrite (bind_run _ _ _ _ _ Hens). cbn beta iota.
  rewrite (bind_run _ _ _ _ _ (cache_get_absent w c lang_code Hc Hnot)). cbn beta iota.
  rewrite (bind_run _ _ w w (Ret (_settings w))) by done.
  rewrite Hchain, (load_loop_skips_absent lang_code false pre (code :: post) w Habs).
  set (w1 := with_events _ w). cbn [load_loop].
  rewrite (bind_run _ _ _ _ _
             (load_candidate_unchanged lang_code code w1 c mtime stamp v
                Hc Hex Hm Hfw Hv Hs Hfresh Hne)).
  cbn beta iota. subst w1. by rewrite with_events_app.
Qed.

Lemma unchanged_fallback_is_reused_witness :
  let w := (load_messages "de" false (initial_world files_de no_dirs frozen_clock)).2 in
  ("es" ∉ cached_langs w) ∧
  fresh_entry w "de" sample_tree ∧
  load_messages "es" false w =
    (Ret sample_tree,
     with_tick
       (with_events [EvExists "translation/messages/es.yaml";
                     EvExists "translation/messages/en.yaml";
                     EvExists "translation/messages/de.yaml";
                     EvStat "translation/messages/de.yaml"] w)).
Proof.
  intros w.
  assert (Hnot : "es" ∉ cached_langs w).
  { unfold cached_langs. apply not_elem_of_dom. vm_compute. reflexivity. }
  assert (Hfresh : fresh_entry w "de" sample_tree).
  { eexists _, _. split_and!; [vm_compute; reflexivity ..| vm_compute; discriminate]. }
  split_and!; [exact Hnot | exact Hfresh |].
  apply (unchanged_fallback_is_reused w "es" ["es"; "en"] "de" [] 1700000000 sample_tree);
    try done.
  intros k Hk. apply elem_of_cons in Hk as [-> | Hk]; [reflexivity |].
  apply list_elem_of_singleton in Hk as ->. reflexivity.
Defined.

(** ** The loader: exceptions *)

Lemma load_loop_raises (lang_code : string) (force_reload : bool) (candidates : list string) :
  ∀ (w : world) (e : exn),
    is_Some (_cache w) →
    (load_loop lang_code force_reload candidates w).1 = Exc e →
    e = OSError ∧ ∃ code, code ∈ candidates ∧ src_exists (source_of w code) = ProbeError.
Proof.
  induction candidates as [|code rest IH]; intros w e Hc; cbn [load_loop].
  - destruct Hc as [c Hc]. unfold cache_set. unfold_monad. by rewrite Hc.
  - pose proof (load_candidate_raises lang_code force_reload code w) as Hraise.
    pose proof (cache_kept_load_candidate lang_code force_reload code w Hc) as Hc'.
    destruct (load_candidate_frame lang_code force_reload code w) as [Hs Hf].
    unfold_monad.
    destruct (load_candidate lang_code force_reload code w) as [[o|e'] w'];
      cbn [fst snd] in *.
    + assert (Hrest : (load_loop lang_code force_reload rest w').1 = Exc e →
                e = OSError ∧
                ∃ code', code' ∈ code :: rest ∧ src_exists (source_of w code') = ProbeError).
      { intros H. destruct (IH w' e Hc' H) as (-> & code' & Hin & Hp).
        split; [done |]. exists code'. split; [by apply list_elem_of_further |].
        unfold source_of in *. by rewrite <- Hs, <- Hf. }
      destruct o; try done; exact Hrest.
    + intros [= ->]. destruct (Hraise e eq_refl) as [-> Hp].
      split; [done |]. exists code. split; [apply list_elem_of_here | done].
Qed.

(** X7: the only exception [load_messages] lets through is the [OSError]
    of an [exists()] probe.  In a state whose cache maps are in sync, a
    call that raises raises [OSError], and the probe of the file of one of
    its candidates raises; so when every probe answers, the call returns a
    tree, whatever else goes wrong with the files. *)
Theorem load_messages_raises_only_on_probe (w : world) (lang_code : string)
    (force_reload : bool) :
  coherent w →
  (∀ e, (load_messages lang_code force_reload w).1 = Exc e →
        e = OSError ∧
        ∃ code, code ∈ lang_code :: fallback_languages (_settings w) ∧
                src_exists (source_of w code) = ProbeError) ∧
  ((∀ code, code ∈ lang_code :: fallback_languages (_settings w) →
            src_exists (source_of w code) ≠ ProbeError) →
   ∃ t, (load_messages lang_code force_reload w).1 = Ret t).
Proof.
  intros Hco.
  assert (Hraise : ∀ e, (load_messages lang_code force_reload w).1 = Exc e →
            e = OSError ∧
            ∃ code, code ∈ lang_code :: fallback_languages (_settings w) ∧
                    src_exists (source_of w code) = ProbeError).
  { intros e. unfold load_messages.
    rewrite (bind_run _ _ _ _ _ (ensure_cache_run w)). cbn beta iota.
    set (w0 := with_cache _ w).
    assert (Hc0 : ∃ c0, _cache w0 = Some c0 ∧ in_sync c0).
    { subst w0. simpl. destruct (_cache w) as [c|] eqn:Hc; simpl.
      - exists c. split; [done | by apply Hco].
      - eexists. split; [done | apply in_sync_init]. }
    destruct Hc0 as (c0 & Hc0 & Hsync).
    assert (Hstep : ∃ r w1,
              (if force_reload then mret None else cache_get lang_code) w0 = (r, w1) ∧
              (∀ e', r ≠ Exc e') ∧ is_Some (_cache w1) ∧
              _settings w1 = _settings w ∧ files w1 = files w).
    { destruct force_reload.
      - exists (Ret None), w0. by split_and!.
      - pose proof (cache_kept_get lang_code w0 ltac:(by eexists)) as Hk.
        pose proof (in_sync_get_no_KeyError lang_code (clock w0 (ticks w0)) c0 Hsync) as Hno.
        unfold cache_get in *. rewrite Hc0 in *.
        destruct (TranslationCache.get lang_code (clock w0 (ticks w0)) c0) as [r c1] eqn:Hget.
        eexists _, _. split; [reflexivity |]. cbn [fst snd] in *.
        split_and!; [| done | by case_decide | by case_decide].
        intros e' ->. revert Hget. unfold TranslationCache.get.
        repeat case_match; try discriminate. intros [= <- _]. done. }
    destruct Hstep as (r & w1 & Hstep & Hr & Hc1 & Hs & Hf).
    rewrite (bind_run _ _ _ _ _ Hstep).
    destruct r as [[c|]|e']; [done | | by destruct (Hr e')].
    rewrite (bind_run _ _ w1 w1 (Ret (_settings w1))) by done. cbn beta iota.
    intros H. destruct (load_loop_raises _ _ _ w1 e Hc1 H) as (-> & code & Hin & Hp).
    split; [done |]. exists code. rewrite <- Hs. split; [done |].
    unfold source_of in *. by rewrite <- Hs, <- Hf. }
  split; [exact Hraise |].
  intros Hprobe. destruct (load_messages lang_code force_reload w) as [[t|e] w'] eqn:Hrun.
  - by exists t.
  - destruct (Hraise e eq_refl) as (_ & code & Hin & Hp). by destruct (Hprobe code Hin).
Qed.

Lemma load_messages_raises_only_on_probe_witness :
  let w := initial_world files_locked no_dirs frozen_clock in
  coherent w ∧
  (load_messages "xx" false w).1 = Exc OSError ∧
  ∃ code, code ∈ "xx" :: fallback_languages (_settings w) ∧
          src_exists (source_of w code) = ProbeError.
Proof.
  intros w.
  assert (Hco : coherent w) by (intros c Hc; discriminate).
  assert (Hrun : (load_messages "xx" false w).1 = Exc OSError) by (vm_compute; reflexivity).
  split_and!; [exact Hco | exact Hrun |].
  exact (proj2 (proj1 (load_messages_raises_only_on_probe w "xx" false Hco) OSError Hrun)).
Defined.

(** ** Documents that are not mappings *)

Lemma load_trace_enters_loop (w : world) (lang_code : string) (force_reload : bool) :
  force_reload = true ∨ lang_code ∉ cached_langs w →
  ∃ w0 c0,
    _cache w0 = Some c0 ∧ _settings w0 = _settings w ∧ files w0 = files w ∧
    cached_langs w0 = cached_langs w ∧
    load_trace lang_code force_reload w
      = loop_trace lang_code force_reload (lang_code :: fallback_languages (_settings w)) w0.
Proof.
  intros Hmiss. unfold load_trace. rewrite ensure_cache_run.
  set (c0 := default (TranslationCache.init (cache_ttl_minutes (_settings w))) (_cache w)).
  set (w0 := with_cache (Some c0) w).
  assert (Hl : cached_langs w0 = cached_langs w).
  { unfold cached_langs. subst w0 c0. simpl. destruct (_cache w); simpl; [done |].
    by rewrite dom_empty_L. }
  exists w0, c0. split_and!; try done.
  destruct force_reload; [done |].
  destruct Hmiss as [? | Hn]; [done |].
  rewrite (cache_get_absent w0 c0 lang_code eq_refl) by (by rewrite Hl). done.
Qed.

(** X8: a document that is empty or falsy counts as the empty
    mapping, where any other document that is not a mapping is skipped.
    For an existing file of the requested language that parses to a value
    which is not a mapping, when reload is forced or the language has no
    cache entry: if the value is falsy (null, false, 0, the empty string or
    the empty list), the first iteration loads the empty tree and the call
    returns it, so no fallback language is tried; if the value is truthy,
    the first iteration fails and the loop goes on with the fallback
    languages. *)
Theorem falsy_document_is_the_empty_mapping (w : world) (lang_code : string)
    (force_reload : bool) (mtime : Z) (v : value) :
  src_exists (source_of w lang_code) = Present →
  src_mtime (source_of w lang_code) = Some mtime →
  src_load (source_of w lang_code) = Parsed v →
  (∀ d, v ≠ VDict d) →
  force_reload = true ∨ lang_code ∉ cached_langs w →
  (truthy v = false →
     load_trace lang_code force_reload w = [(lang_code, Ret (Loaded []))] ∧
     (load_messages lang_code force_reload w).1 = Ret []) ∧
  (truthy v = true →
     ∃ w', load_trace lang_code force_reload w
           = (lang_code, Ret Failed)
               :: loop_trace lang_code force_reload (fallback_languages (_settings w)) w').
Proof.
  intros Hex Hm Hv Hnd Hmiss.
  destruct (load_trace_enters_loop w lang_code force_reload Hmiss)
    as (w0 & c0 & Hc0 & Hs & Hf & Hl & Htrace).
  assert (Hsrc : source_of w0 lang_code = source_of w lang_code)
    by (unfold source_of; by rewrite Hs, Hf).
  assert (Hb : reuse_blocked w0 force_reload lang_code).
  { destruct Hmiss as [? | ?]; [by left | right; left; by rewrite Hl]. }
  split; intros Ht.
  - assert (Huse : usable (source_of w lang_code) mtime []).
    { split_and!; [done | done |]. exists v. split; [done | by rewrite Ht]. }
    split.
    + rewrite Htrace. cbn [loop_trace].
      rewrite (load_candidate_usable lang_code force_reload lang_code w0 c0 mtime []);
        [done | by rewrite Hsrc | done | done].
    + by destruct (load_messages_own_file w lang_code force_reload mtime [] Huse Hmiss).
  - assert (Hbad : unusable (source_of w0 lang_code)).
    { rewrite Hsrc. right. split; [done |]. right; right; right. by exists v. }
    destruct (load_candidate_unusable lang_code force_reload lang_code w0 Hbad Hb)
      as (o & evs & Hrun & Ho).
    assert (Hfailed : o = Failed).
    { destruct Ho as [-> | ->]; [|done]. exfalso.
      revert Hrun. unfold load_candidate.
      rewrite (bind_run _ _ w0 w0 (Ret (_settings w0))) by done.
      rewrite (bind_run _ _ _ _ _ (path_exists_run _ w0)).
      unfold source_of in Hsrc. rewrite Hsrc. unfold source_of in Hex. rewrite Hex.
      cbn beta iota. unfold_monad.
      pose proof (try_file_outcome lang_code force_reload lang_code
                    (file_path (_settings w0) lang_code)
                    (with_events [EvExists (file_path (_settings w0) lang_code)] w0)) as Hout.
      destruct (try_file _ _ _ _ _) as [[o|e] w2]; [|done]. cbn [fst] in Hout.
      intros [= -> _].
      assert (Hn0 : force_reload = true ∨ lang_code ∉ cached_langs w0)
        by (destruct Hmiss as [? | ?]; [by left | right; by rewrite Hl]).
      by destruct (Hout FileNotFound Hn0) as [? | (? & ? & ? & _)]. }
    subst o. exists (with_events evs w0). rewrite Htrace. cbn [loop_trace].
    by rewrite Hrun.
Qed.

Lemma falsy_document_is_the_empty_mapping_witness :
  let empty_file (p : string) :=
    if String.eqb p "translation/messages/es.yaml"
    then mk_source Present (Some 1700000000) (Parsed VNone)
    else files_en p in
  let w := initial_world empty_file no_dirs frozen_clock in
  src_load (source_of w "es") = Parsed VNone ∧
  usable (source_of w "en") 1700000000 sample_tree ∧
  (load_messages "es" false w).1 = Ret [].
Proof.
  intros empty_file w.
  assert (Hv : src_load (source_of w "es") = Parsed VNone) by reflexivity.
  split_and!; [exact Hv | |].
  - split_and!; [reflexivity | reflexivity |].
    exists (VDict sample_tree). split; reflexivity.
  - refine (proj2 (proj1 (falsy_document_is_the_empty_mapping w "es" false 1700000000 VNone
                            eq_refl eq_refl Hv _ _) eq_refl)).
    + discriminate.
    + right. apply not_elem_of_empty.
Defined.

(** ** The loader: what a call can touch *)

Lemma watchers_kept_get (key : string) (w : world) :
  _file_watchers (cache_get key w).2 = _file_watchers w.
Proof.
  unfold cache_get. destruct w as [s [c|] fw f d k n io]; simpl; [|done].
  destruct (TranslationCache.get _ _ _). by case_decide.
Qed.

Lemma load_candidate_watchers (lang_code : string) (force_reload : bool) (code : string)
    (k : string) (x : option Z) :
  k ≠ code →
  preserves (λ w, _file_watchers w !! k = x) (load_candidate lang_code force_reload code).
Proof.
  intros Hk.
  set (I := λ w : world, _file_watchers w !! k = x).
  assert (I_events : ∀ evs w, I w → I (with_events evs w)) by done.
  assert (I_get : ∀ key, preserves I (cache_get key)).
  { intros key w H. unfold I. by rewrite watchers_kept_get. }
  assert (I_set : ∀ key v, preserves I (cache_set key v)).
  { intros key v [s0 [c0|] fw0 f0 d0 kk n0 io0] H; exact H. }
  unfold load_candidate.
  apply preserves_bind; [auto with preserves |]. intros s.
  apply preserves_bind; [by apply inv_path_exists |].
  intros [|]; [|auto with preserves].
  apply preserves_bind; [|auto with preserves].
  apply preserves_attempt. unfold try_file.
  apply preserves_bind; [by apply inv_path_mtime |]. intros mtime.
  apply preserves_bind; [by apply inv_check_unchanged |].
  intros [c|]; [auto with preserves |].
  unfold read_and_store.
  apply preserves_bind; [by apply inv_safe_load |].
  intros v. destruct (if truthy v then v else VDict []); auto with preserves.
  apply preserves_bind; [apply I_set |]. intros _.
  apply preserves_bind; [|auto with preserves].
  apply preserves_modify. intros w H. unfold I in *.
  destruct w as [s0 c0 fw0 f0 d0 kk n0 io0]. simpl in *. by rewrite lookup_insert_ne.
Qed.

Lemma cache_set_frame (key : string) (v : tree) (w : world) :
  io_log (cache_set key v w).2 = io_log w ∧
  _file_watchers (cache_set key v w).2 = _file_watchers w.
Proof. unfold cache_set. by destruct w as [s [c|] fw f d k n io]. Qed.

Lemma load_loop_touches (lang_code : string) (force_reload : bool)
    (candidates : list string) :
  ∀ w : world,
    (∃ evs, io_log (load_loop lang_code force_reload candidates w).2 = (io_log w ++ evs)%list ∧
            ∀ e, e ∈ evs →
                 ∃ k, k ∈ candidates ∧ event_path e = file_path (_settings w) k) ∧
    (∀ k, k ∉ candidates →
          _file_watchers (load_loop lang_code force_reload candidates w).2 !! k
            = _file_watchers w !! k).
Proof.
  induction candidates as [|code rest IH]; intros w; cbn [load_loop].
  - unfold_monad. destruct (cache_set_frame lang_code [] w) as [Hio Hfw].
    destruct (cache_set lang_code [] w) as [[[]|e] w']; cbn [fst snd] in *.
    + split; [|by rewrite Hfw]. exists []. split; [by rewrite app_nil_r |].
      intros e He. inversion He.
    + split; [|by rewrite Hfw]. exists []. split; [by rewrite app_nil_r |].
      intros e' He. inversion He.
  - destruct (load_candidate_log lang_code force_reload code w) as (evs1 & Hio1 & Hevs1).
    destruct (load_candidate_frame lang_code force_reload code w) as [Hs _].
    assert (Hfw1 : ∀ k, k ≠ code →
              _file_watchers (load_candidate lang_code force_reload code w).2 !! k
                = _file_watchers w !! k).
    { intros k Hk.
      exact (load_candidate_watchers lang_code force_reload code k _ Hk w eq_refl). }
    unfold_monad.
    destruct (load_candidate lang_code force_reload code w) as [[o|e] w'];
      cbn [fst snd] in *.
    + assert (Hstop : (∃ evs, io_log w' = (io_log w ++ evs)%list ∧
                         ∀ e, e ∈ evs →
                              ∃ k, k ∈ code :: rest ∧
                                   event_path e = file_path (_settings w) k) ∧
                      (∀ k, k ∉ code :: rest →
                            _file_watchers w' !! k = _file_watchers w !! k)).
      { split.
        - exists evs1. split; [done |]. intros e He. exists code.
          split; [apply list_elem_of_here | by apply Hevs1].
        - intros k Hk. apply not_elem_of_cons in Hk as [Hk _]. by apply Hfw1. }
      assert (Hgo : (∃ evs, io_log (load_loop lang_code force_reload rest w').2
                            = (io_log w ++ evs)%list ∧
                       ∀ e, e ∈ evs →
                            ∃ k, k ∈ code :: rest ∧
                                 event_path e = file_path (_settings w) k) ∧
                    (∀ k, k ∉ code :: rest →
                          _file_watchers (load_loop lang_code force_reload rest w').2 !! k
                            = _file_watchers w !! k)).
      { destruct (IH w') as ((evs2 & Hio2 & Hevs2) & Hfw2). split.
        - exists (evs1 ++ evs2)%list. split; [by rewrite Hio2, Hio1, app_assoc |].
          intros e He. apply elem_of_app in He as [He | He].
          + exists code. split; [apply list_elem_of_here | by apply Hevs1].
          + destruct (Hevs2 e He) as (k & Hk & Hp). exists k.
            split; [by apply list_elem_of_further | by rewrite <- Hs].
        - intros k Hk. apply not_elem_of_cons in Hk as [Hk1 Hk2].
          rewrite (Hfw2 k Hk2). by apply Hfw1. }
      destruct o; assumption.
    + split.
      * exists evs1. split; [done |]. intros e' He. exists code.
        split; [apply list_elem_of_here | by apply Hevs1].
      * intros k Hk. apply not_elem_of_cons in Hk as [Hk _]. by apply Hfw1.
Qed.

Lemma cached_langs_get (key : string) (w : world) :
  cached_langs (cache_get key w).2 ⊆ cached_langs w.
Proof.
  unfold cached_langs, cache_get, TranslationCache.get.
  destruct w as [s [c|] fw f d k n io]; simpl; [|done].
  destruct (TranslationCache._cache c !! key); [|by case_decide].
  destruct (TranslationCache._timestamps c !! key); [|by case_decide].
  destruct (_ <? _); case_decide; simpl; rewrite ?dom_delete_L; set_solver.
Qed.

(** X9: what one call of [load_messages] can touch.  Whatever the
    files are and however the call ends, it leaves the settings alone;
    the only cache entry it can add is the one of the requested code; it
    records modification times for the requested code and the fallback
    languages only; and every file-system access it makes is on the file of
    one of these candidates. *)
Theorem load_messages_touches_its_candidates_only (lang_code : string)
    (force_reload : bool) (w : world) :
  let w1 := (load_messages lang_code force_reload w).2 in
  let candidates := lang_code :: fallback_languages (_settings w) in
  _settings w1 = _settings w ∧
  cached_langs w1 ⊆ {[lang_code]} ∪ cached_langs w ∧
  (∀ k, k ∉ candidates → _file_watchers w1 !! k = _file_watchers w !! k) ∧
  ∃ evs, io_log w1 = (io_log w ++ evs)%list ∧
         ∀ e, e ∈ evs → ∃ k, k ∈ candidates ∧ event_path e = file_path (_settings w) k.
Proof.
  intros w1 candidates.
  split; [apply load_messages_frame |]. split.
  { apply (inv_load_messages (λ w', cached_langs w' ⊆ {[lang_code]} ∪ cached_langs w)
             (λ key, key = lang_code)); try done.
    - intros [s [c|] fw f d k n io] H; unfold cached_langs in *; simpl in *; [done |].
      rewrite dom_empty_L. set_solver.
    - intros key w' H. pose proof (cached_langs_get key w'). set_solver.
    - intros key v -> [s [c|] fw f d k n io] H; unfold cached_langs, cache_set in *;
        simpl in *; [|done].
      rewrite dom_insert_L. set_solver.
    - set_solver. }
  subst w1. unfold load_messages.
  rewrite (bind_run _ _ _ _ _ (ensure_cache_run w)). cbn beta iota.
  set (w0 := with_cache _ w).
  assert (Hstep : ∃ r w1,
            (if force_reload then mret None else cache_get lang_code) w0 = (r, w1) ∧
            _settings w1 = _settings w ∧ io_log w1 = io_log w ∧
            _file_watchers w1 = _file_watchers w).
  { destruct force_reload.
    - by exists (Ret None), w0.
    - pose proof (cache_get_io lang_code w0) as Hio.
      pose proof (watchers_kept_get lang_code w0) as Hfw.
      pose proof (load_messages_frame lang_code false w) as _.
      assert (Hs : _settings (cache_get lang_code w0).2 = _settings w).
      { unfold cache_get. subst w0. simpl.
        destruct (TranslationCache.get _ _ _). by case_decide. }
      destruct (cache_get lang_code w0) as [r w1]. by exists r, w1. }
  destruct Hstep as (r & w1 & Hstep & Hs & Hio & Hfw).
  rewrite (bind_run _ _ _ _ _ Hstep).
  assert (Hnone : (∀ k, k ∉ candidates → _file_watchers w1 !! k = _file_watchers w !! k) ∧
                  ∃ evs, io_log w1 = (io_log w ++ evs)%list ∧
                         ∀ e, e ∈ evs →
                              ∃ k, k ∈ candidates ∧
                                   event_path e = file_path (_settings w) k).
  { split; [intros; by rewrite Hfw |]. exists []. split; [by rewrite app_nil_r |].
    intros e He. inversion He. }
  destruct r as [[c|]|e]; [exact Hnone | | exact Hnone].
  rewrite (bind_run _ _ w1 w1 (Ret (_settings w1))) by done. cbn beta iota.
  rewrite Hs. fold candidates.
  destruct (load_loop_touches lang_code force_reload candidates w1)
    as ((evs & Hlog & Hevs) & Hkeep).
  split.
  - intros k Hk. by rewrite (Hkeep k Hk), Hfw.
  - exists evs. split; [by rewrite Hlog, Hio |].
    intros e He. destruct (Hevs e He) as (k & Hk & Hp). exists k. by rewrite <- Hs.
Qed.

Lemma load_messages_touches_its_candidates_only_witness :
  let w := initial_world files_de no_dirs frozen_clock in
  let w1 := (load_messages "es" false w).2 in
  ("fr" ∉ "es" :: fallback_languages (_settings w)) ∧
  cached_langs w1 ⊆ {[ "es" ]} ∪ cached_langs w ∧
  _file_watchers w1 !! "fr" = _file_watchers w !! "fr".
Proof.
  intros w w1.
  assert (Hfr : "fr" ∉ "es" :: fallback_languages (_settings w)).
  { intros H. repeat (apply elem_of_cons in H as [H | H]; [discriminate |]). inversion H. }
  destruct (load_messages_touches_its_candidates_only "es" false w) as (_ & Hc & Hfw & _).
  split_and!; [exact Hfr | exact Hc | exact (Hfw "fr" Hfr)].
Defined.

(** ** Invariants of the handler *)

(** A property of the state that file-system accesses and the recording
    of modification times leave alone, and that the cache operations and
    [settings] keep, is kept by every call of the handler. *)
Section HandlerInvariant.

Variable I : world → Prop.
Variable format_ext : string → gmap string string → fmt_result.

Hypothesis I_events : ∀ evs w, I w → I (with_events evs w).
Hypothesis I_watchers : ∀ fw w, I w → I (with_file_watchers fw w).
Hypothesis I_ensure : preserves I _ensure_cache.
Hypothesis I_get : ∀ key, preserves I (cache_get key).
Hypothesis I_set : ∀ key v, preserves I (cache_set key v).
Hypothesis I_clear : ∀ key, preserves I (cache_clear key).
Hypothesis I_settings : ∀ p f d t, preserves I (settings p f d t).











End HandlerInvariant.






Section Coherence.

Variable format_ext : string → gmap string string → fmt_result.



End Coherence.


(** ** Key paths *)

Lemma split_dot_nonempty (s cur : string) : split_dot s cur ≠ [].
Proof.
  revert cur. induction s as [|c r IH]; intros cur; simpl; [done |].
  destruct (Ascii.eqb c "."); [done | apply IH].
Qed.

Lemma split_dot_join (s : string) : ∀ cur, dot_join (split_dot s cur) = cur +:+ s.
Proof.
  induction s as [|c r IH]; intros cur; simpl.
  - by rewrite append_nil_r.
  - destruct (Ascii.eqb_spec c ".") as [-> | Hc].
    + pose proof (IH "") as Hr. pose proof (split_dot_nonempty r "") as Hne.
      destruct (split_dot r "") as [|y ys]; [done |].
      change (dot_join (cur :: y :: ys)) with (cur +:+ "." +:+ dot_join (y :: ys)).
      by rewrite Hr.
    + rewrite IH. by rewrite append_assoc.
Qed.

Lemma split_dot_no_dot (s : string) :
  ∀ cur, no_dot cur → Forall no_dot (split_dot s cur).
Proof.
  induction s as [|c r IH]; intros cur Hcur; simpl.
  - by constructor.
  - destruct (Ascii.eqb_spec c ".") as [-> | Hc].
    + constructor; [done |]. apply IH. unfold no_dot; simpl. apply not_elem_of_nil.
    + apply IH. unfold no_dot in *. clear IH.
      induction cur as [|x cur IHc]; simpl in *.
      * intros H. apply list_elem_of_singleton in H. congruence.
      * apply not_elem_of_cons in Hcur as [Hx Hcur].
        apply not_elem_of_cons. split; [done | by apply IHc].
Qed.

Lemma split_dot_segment (x : string) :
  no_dot x → ∀ s cur, split_dot (x +:+ s) cur = split_dot s (cur +:+ x).
Proof.
  unfold no_dot. induction x as [|c x IH]; intros Hx s cur.
  - by rewrite append_nil_r.
  - simpl in Hx. apply not_elem_of_cons in Hx as [Hc Hx].
    change (String c x +:+ s) with (String c (x +:+ s)). cbn [split_dot].
    destruct (Ascii.eqb_spec c ".") as [-> | _]; [done |].
    rewrite (IH Hx). by rewrite append_assoc.
Qed.

Lemma split_dot_of_join (k : string) (path : list string) :
  Forall no_dot (k :: path) → ∀ cur, split_dot (dot_join (k :: path)) cur = (cur +:+ k) :: path.
Proof.
  revert k. induction path as [|k' path IH]; intros k Hall cur.
  - apply Forall_cons in Hall as [Hk _].
    change (dot_join [k]) with k.
    rewrite <- (append_nil_r k) at 1. by rewrite (split_dot_segment k Hk).
  - apply Forall_cons in Hall as [Hk Hall].
    change (dot_join (k :: k' :: path)) with (k +:+ "." +:+ dot_join (k' :: path)).
    rewrite (split_dot_segment k Hk).
    change ("." +:+ dot_join (k' :: path)) with (String "." (dot_join (k' :: path))).
    cbn [split_dot]. change (Ascii.eqb "." ".") with true. cbn iota.
    by rewrite (IH k' Hall "").
Qed.

Section Paths.

Variable format_ext : string → gmap string string → fmt_result.

(** X11: a string path is cut at every dot.  Joining its segments with
    dots gives the string back, no segment contains a dot, and there is
    always a segment: the empty string is the path of the one empty key.
    So for a non-empty list of segments without dots, [get] and
    [get_async] give the same result for the list and for the dot-joined
    string; a key that contains a dot is reached by a list path only. *)
Theorem string_path_is_cut_at_dots :
  (∀ s, dot_join (parse_path (PathStr s)) = s ∧
        Forall no_dot (parse_path (PathStr s)) ∧
        parse_path (PathStr s) ≠ []) ∧
  parse_path (PathStr "") = [""] ∧
  (∀ segments, segments ≠ [] → Forall no_dot segments →
     parse_path (PathStr (dot_join segments)) = segments ∧
     ∀ lang_code default placeholders w,
       get format_ext lang_code (PathStr (dot_join segments)) default placeholders w
         = get format_ext lang_code (PathList segments) default placeholders w ∧
       get_async format_ext lang_code (PathStr (dot_join segments)) default placeholders w
         = get_async format_ext lang_code (PathList segments) default placeholders w).
Proof.
  split_and!.
  - intros s. cbn [parse_path]. split_and!.
    + by rewrite split_dot_join.
    + apply split_dot_no_dot. unfold no_dot; simpl. apply not_elem_of_nil.
    + apply split_dot_nonempty.
  - reflexivity.
  - intros [|k path] Hne Hall; [done |].
    assert (Hp : parse_path (PathStr (dot_join (k :: path))) = k :: path)
      by (cbn [parse_path]; by rewrite (split_dot_of_join k path Hall "")).
    split; [exact Hp |].
    intros lang_code default placeholders w. unfold get, get_async.
    rewrite Hp. done.
Qed.

(** ** Placeholders *)

Lemma format_scan_agree (kwargs kwargs' : gmap string string) (m : nat) :
  ∀ (s : string) (field : option string),
    (String.length s ≤ m)%nat →
    scan_plain s field = true →
    (∀ n, n ∈ scan_names s field → kwargs !! n = kwargs' !! n) →
    format_scan format_ext s field kwargs = format_scan format_ext s field kwargs'.
Proof.
  induction m as [|m IH]; intros s field Hlen Hp Hall.
  - destruct s; simpl in Hlen; [|lia]. by destruct field.
  - destruct s as [|c s]; [by destruct field |].
    simpl in Hlen. destruct field as [name|]; cbn [format_scan scan_names scan_plain] in *.
    + destruct (Ascii.eqb c "}").
      * apply andb_true_iff in Hp as [Hk Hp]. rewrite Hk in *.
        rewrite <- (Hall name) by apply list_elem_of_here.
        rewrite (IH s None); [done | lia | done |].
        intros n Hin. apply Hall. by apply list_elem_of_further.
      * apply andb_true_iff in Hp as [Hc Hp]. rewrite Hc in *.
        apply IH; [lia | done | done].
    + destruct (Ascii.eqb c "{").
      * destruct s as [|c' s']; [done |].
        simpl in Hlen. destruct (Ascii.eqb c' "{").
        -- rewrite (IH s' None); [done | lia | done | done].
        -- apply IH; [simpl; lia | done | done].
      * destruct (Ascii.eqb c "}").
        -- destruct s as [|c' s']; [done |].
           simpl in Hlen. destruct (Ascii.eqb c' "}"); [|done].
           rewrite (IH s' None); [done | lia | done | done].
        -- rewrite (IH s None); [done | lia | done | done].
Qed.

Lemma format_scan_no_brace (kwargs : gmap string string) (s : string) :
  no_brace s → format_scan format_ext s None kwargs = FmtOk s.
Proof.
  unfold no_brace. induction s as [|c s IH]; intros [Ho Hc]; [done |].
  simpl in Ho, Hc. apply not_elem_of_cons in Ho as [Ho1 Ho2].
  apply not_elem_of_cons in Hc as [Hc1 Hc2].
  cbn [format_scan].
  destruct (Ascii.eqb_spec c "{") as [-> | _]; [done |].
  destruct (Ascii.eqb_spec c "}") as [-> | _]; [done |].
  by rewrite IH.
Qed.

(** X12: formatting looks at the referenced placeholders only.  For a
    well-formed template of plain fields, two sets of placeholders that
    agree on the names the template references give the same result, so
    placeholders the template does not mention are ignored; and a
    template without braces is returned as it is, whatever the
    placeholders. *)
Theorem formatting_uses_referenced_names_only (template : string)
    (placeholders placeholders' : gmap string string) :
  (plain_template template = true →
   (∀ n, n ∈ referenced_names template → placeholders !! n = placeholders' !! n) →
   str_format format_ext template placeholders = str_format format_ext template placeholders' ∧
   format_or_template format_ext template placeholders
     = format_or_template format_ext template placeholders' ∧
   format_or_template_async format_ext template placeholders
     = format_or_template_async format_ext template placeholders') ∧
  (no_brace template →
   str_format format_ext template placeholders = FmtOk template ∧
   format_or_template format_ext template placeholders = template ∧
   format_or_template_async format_ext template placeholders = template).
Proof.
  split.
  - intros Hp Hall.
    assert (H : str_format format_ext template placeholders
                = str_format format_ext template placeholders')
      by (by apply (format_scan_agree placeholders placeholders' (String.length template))).
    unfold format_or_template, format_or_template_async. by rewrite H.
  - intros Hn.
    assert (H : str_format format_ext template placeholders = FmtOk template)
      by (by apply format_scan_no_brace).
    unfold format_or_template, format_or_template_async. by rewrite H.
Qed.

End Paths.

Lemma string_path_is_cut_at_dots_witness :
  ["a"; "b"; "c"] ≠ [] ∧ Forall no_dot ["a"; "b"; "c"] ∧
  parse_path (PathStr "a.b.c") = ["a"; "b"; "c"].
Proof.
  assert (Hne : ["a"; "b"; "c"] ≠ []) by discriminate.
  assert (Hall : Forall no_dot ["a"; "b"; "c"]).
  { repeat constructor; unfold no_dot; simpl; intros H;
      repeat (apply elem_of_cons in H as [H | H]; [discriminate |]); inversion H. }
  split_and!; [exact Hne | exact Hall |].
  exact (proj1 (proj2 (proj2 (string_path_is_cut_at_dots no_ext)) ["a"; "b"; "c"] Hne Hall)).
Defined.

Lemma formatting_uses_referenced_names_only_witness :
  plain_template "Hello, {name}!" = true ∧
  format_or_template no_ext "Hello, {name}!" {[ "name" := "Alice" ]}
    = format_or_template no_ext "Hello, {name}!"
        (<[ "unused" := "x" ]> {[ "name" := "Alice" ]}).
Proof.
  assert (Hp : plain_template "Hello, {name}!" = true) by reflexivity.
  split; [exact Hp |].
  refine (proj1 (proj2 (proj1 (formatting_uses_referenced_names_only no_ext "Hello, {name}!"
                    {[ "name" := "Alice" ]} (<[ "unused" := "x" ]> {[ "name" := "Alice" ]}))
                    Hp _))).
  intros n Hn. vm_compute in Hn.
  apply list_elem_of_singleton in Hn as ->. reflexivity.
Defined.

Section Positional.

Variable format_ext : string → gmap string string → fmt_result.

Lemma format_scan_digits (kwargs : gmap string string) (digits : string) :
  forallb is_digit (list_ascii_of_string digits) = true →
  ∀ name post,
    forallb is_digit (list_ascii_of_string name) = true →
    format_scan format_ext (digits +:+ String "}" post) (Some name) kwargs = FmtError.
Proof.
  induction digits as [|c digits IH]; intros Hd name post Hname.
  - change ("" +:+ String "}" post) with (String "}" post). cbn [format_scan].
    change (Ascii.eqb "}" "}") with true. cbn iota.
    unfold keyword_name. rewrite Hname. by rewrite andb_false_r.
  - simpl in Hd. apply andb_true_iff in Hd as [Hc Hd].
    change (String c digits +:+ String "}" post) with (String c (digits +:+ String "}" post)).
    cbn [format_scan].
    assert (Hrange : (48 ≤ N_of_ascii c ≤ 57)%N).
    { unfold is_digit in Hc. apply andb_true_iff in Hc as [H1 H2].
      apply N.leb_le in H1, H2. lia. }
    assert (Hnot : ∀ x, (N_of_ascii x < 48 ∨ 57 < N_of_ascii x)%N → Ascii.eqb c x = false).
    { intros x Hx. destruct (Ascii.eqb_spec c x) as [-> | ?]; [lia | done]. }
    rewrite (Hnot "}"%char) by (right; vm_compute; reflexivity).
    assert (Hf : field_name_char c = true).
    { unfold field_name_char. apply andb_true_iff. split; [apply N.ltb_lt; lia |].
      unfold is_one_of. simpl.
      rewrite !Hnot; try done; vm_compute; (by left) || (by right). }
    rewrite Hf. apply IH; [done |].
    clear -Hname Hc. induction name as [|x name IHn]; simpl in *.
    + by rewrite Hc.
    + apply andb_true_iff in Hname as [Hx Hname]. rewrite Hx. by apply IHn.
Qed.

(** X13: a positional field is never filled.  The handler passes its
    placeholders by keyword only, so a template whose first field is [{}]
    or a number in braces fails to format, whatever the placeholders are,
    and [get] and [get_async] return the template itself. *)
Theorem positional_fields_are_never_filled (text digits post : string)
    (placeholders : gmap string string) :
  no_brace text →
  forallb is_digit (list_ascii_of_string digits) = true →
  let template := text +:+ String "{" (digits +:+ String "}" post) in
  str_format format_ext template placeholders = FmtError ∧
  format_or_template format_ext template placeholders = template ∧
  format_or_template_async format_ext template placeholders = template.
Proof.
  intros Htext Hd template.
  assert (H : str_format format_ext template placeholders = FmtError).
  { subst template. unfold str_format, no_brace in *. revert Htext.
    induction text as [|c text IH]; intros [Ho Hc].
    - change ("" +:+ String "{" (digits +:+ String "}" post))
        with (String "{" (digits +:+ String "}" post)).
      cbn [format_scan]. change (Ascii.eqb "{" "{") with true. cbn iota.
      destruct digits as [|d digits].
      + reflexivity.
      + change (String d digits +:+ String "}" post)
          with (String d (digits +:+ String "}" post)).
        simpl in Hd. apply andb_true_iff in Hd as [Hd1 Hd2].
        assert (Hne : Ascii.eqb d "{" = false).
        { destruct (Ascii.eqb_spec d "{") as [-> | ?]; [discriminate | done]. }
        rewrite Hne.
        change (String d (digits +:+ String "}" post))
          with (String d digits +:+ String "}" post).
        apply format_scan_digits; [|done]. simpl. by rewrite Hd1.
    - simpl in Ho, Hc. apply not_elem_of_cons in Ho as [Ho1 Ho2].
      apply not_elem_of_cons in Hc as [Hc1 Hc2].
      change (String c text +:+ String "{" (digits +:+ String "}" post))
        with (String c (text +:+ String "{" (digits +:+ String "}" post))).
      cbn [format_scan].
      destruct (Ascii.eqb_spec c "{") as [-> | _]; [done |].
      destruct (Ascii.eqb_spec c "}") as [-> | _]; [done |].
      by rewrite IH. }
  unfold format_or_template, format_or_template_async. by rewrite H.
Qed.

End Positional.

Lemma positional_fields_are_never_filled_witness :
  no_brace "Hello, " ∧
  format_or_template no_ext "Hello, {0}!" {[ "0" := "Alice" ]} = "Hello, {0}!".
Proof.
  assert (Ht : no_brace "Hello, ").
  { split; simpl; intros H;
      repeat (apply elem_of_cons in H as [H | H]; [discriminate |]); inversion H. }
  split; [exact Ht |].
  exact (proj1 (proj2 (positional_fields_are_never_filled no_ext "Hello, " "0" "!"
                         {[ "0" := "Alice" ]} Ht eq_refl))).
Defined.

(** ** The language of a user or a guild *)

Section Preferred.

Variable format_ext : string → gmap string string → fmt_result.

(** X14: [get_for_user] and [get_for_guild] never fail because of the
    database.  When the bot has no [settings_db], when the lookup raises,
    or when it returns [None] or the empty string, the call is
    [get_async] for the default language; when it returns a non-empty
    code, the call is [get_async] for that code. *)
Theorem database_failure_means_default_language (bot : Bot) (id : Z) (path : key_path)
    (default : string) (placeholders : gmap string string) (w : world) :
  let for_default :=
    get_async format_ext (default_language (_settings w)) path default placeholders w in
  (settings_db bot = None →
     get_for_user format_ext bot id path default placeholders w = for_default ∧
     get_for_guild format_ext bot id path default placeholders w = for_default) ∧
  (∀ db, settings_db bot = Some db →
     ((∃ e, get_user_language db id = Exc e) ∨ get_user_language db id = Ret None ∨
      get_user_language db id = Ret (Some "") →
        get_for_user format_ext bot id path default placeholders w = for_default) ∧
     ((∃ e, get_guild_language db id = Exc e) ∨ get_guild_language db id = Ret None ∨
      get_guild_language db id = Ret (Some "") →
        get_for_guild format_ext bot id path default placeholders w = for_default) ∧
     (∀ lang, lang ≠ "" → get_user_language db id = Ret (Some lang) →
        get_for_user format_ext bot id path default placeholders w
          = get_async format_ext lang path default placeholders w) ∧
     (∀ lang, lang ≠ "" → get_guild_language db id = Ret (Some lang) →
        get_for_guild format_ext bot id path default placeholders w
          = get_async format_ext lang path default placeholders w)).
Proof.
  intros for_default. subst for_default. unfold get_for_user, get_for_guild.
  rewrite !(bind_run _ _ w w (Ret (_settings w))) by done. cbn beta iota.
  split.
  - by intros ->.
  - intros db ->. split_and!.
    + by intros [[e ->] | [-> | ->]].
    + by intros [[e ->] | [-> | ->]].
    + intros lang Hl ->. simpl. by rewrite (str_truthy_true lang Hl).
    + intros lang Hl ->. simpl. by rewrite (str_truthy_true lang Hl).
Qed.

(** X15: a user whose language has no file is served from the fallback
    chain, not from the default language.  When the lookup returns the
    code [lang], the cache check for [lang] misses, and [code] is the
    first candidate of [lang] followed by the fallback languages whose
    source is usable, [get_for_user] navigates and formats the tree of
    [code], and caches that tree under [lang]; the default language plays
    no part. *)
Theorem user_language_falls_back_along_the_chain (bot : Bot) (db : SettingsDB) (id : Z)
    (lang : string) (path : key_path) (default : string)
    (placeholders : gmap string string) (w : world)
    (pre : list string) (code : string) (post : list string) (mtime : Z) (data : tree) :
  settings_db bot = Some db →
  get_user_language db id = Ret (Some lang) →
  lang ≠ "" →
  lang :: fallback_languages (_settings w) = (pre ++ code :: post)%list →
  (∀ k, k ∈ pre → unusable (source_of w k) ∧ reuse_blocked w false k) →
  usable (source_of w code) mtime data →
  reuse_blocked w false code →
  cache_miss w lang →
  let r := get_for_user format_ext bot id path default placeholders w in
  r.1 = Ret (match navigate (VDict data) (parse_path path) with
             | Some (VStr s) => format_or_template_async format_ext s placeholders
             | _ => default
             end) ∧
  ∃ stamp, holds_entry r.2 lang data stamp.
Proof.
  intros Hdb Hlang Hne Hchain Hpre Huse Hblocked Hmiss r. subst r.
  unfold get_for_user.
  rewrite (bind_run _ _ w w (Ret (_settings w))) by done. cbn beta iota.
  rewrite Hdb, Hlang. simpl preferred_language. rewrite (str_truthy_true lang Hne).
  destruct (load_messages_first_usable w lang false pre code post mtime data
              Hchain Hpre Huse Hblocked (or_intror Hmiss)) as (Hret & Hentry & _).
  unfold get_async. unfold_monad.
  destruct (load_messages lang false w) as [r w1]. cbn [fst snd] in *. subst r.
  split; [|exact Hentry]. cbn [fst].
  by destruct (navigate (VDict data) (parse_path path)) as [[| | | | |]|].
Qed.

End Preferred.

Lemma database_failure_means_default_language_witness :
  let bot := mk_bot (Some (mk_settings_db (λ _, Exc KeyError) (λ _, Ret (Some "de")))) in
  let w := initial_world files_en no_dirs frozen_clock in
  get_for_user no_ext bot 7 (PathStr "a.b") "X" ∅ w
    = get_async no_ext "en" (PathStr "a.b") "X" ∅ w ∧
  get_for_guild no_ext bot 7 (PathStr "a.b") "X" ∅ w
    = get_async no_ext "de" (PathStr "a.b") "X" ∅ w.
Proof.
  intros bot w.
  destruct (database_failure_means_default_language no_ext bot 7 (PathStr "a.b") "X" ∅ w)
    as [_ H].
  destruct (H _ eq_refl) as (Hu & _ & _ & Hg).
  split.
  - apply Hu. left. by exists KeyError.
  - by apply (Hg "de").
Defined.

Lemma user_language_falls_back_along_the_chain_witness :
  let db := mk_settings_db (λ _, Ret (Some "es")) (λ _, Ret None) in
  let w := with_settings (mk_settings "translation/messages" ["de"; "fr"] "fr" 30)
             (initial_world files_de no_dirs frozen_clock) in
  default_language (_settings w) = "fr" ∧
  (get_for_user no_ext (mk_bot (Some db)) 7 (PathStr "a.b") "X" ∅ w).1 = Ret "1".
Proof.
  intros db w. split; [reflexivity |].
  assert (Hpre : ∀ k, k ∈ ["es"] → unusable (source_of w k) ∧ reuse_blocked w false k).
  { intros k Hk. apply list_elem_of_singleton in Hk as ->.
    split; [left; reflexivity | right; left; apply not_elem_of_empty]. }
  assert (Huse : usable (source_of w "de") 1700000000 sample_tree).
  { split_and!; [reflexivity | reflexivity |].
    exists (VDict sample_tree). split; reflexivity. }
  assert (Hb : reuse_blocked w false "de") by (right; left; apply not_elem_of_empty).
  exact (proj1 (user_language_falls_back_along_the_chain no_ext (mk_bot (Some db)) db 7 "es"
                  (PathStr "a.b") "X" ∅ w ["es"] "de" ["fr"] 1700000000 sample_tree
                  eq_refl eq_refl ltac:(discriminate) eq_refl Hpre Huse Hb I)).
Defined.

(** ** The available languages *)









Section Listing.

Variable format_ext : string → gmap string string → fmt_result.


End Listing.


(** ** The validator: the shape of a report *)

(** X18: [validate_translations] always returns a report.  The report
    is invalid exactly when it carries an error, and then it lists no
    key; missing keys give one warning, which states their number and the
    default language, and never make the report invalid; extra keys give
    no warning.  No key is listed twice or in both lists, and validating
    the default language itself lists no key at all. *)
Theorem validation_always_reports (lang_code : string) (w : world) :
  ∃ r w',
    validate_translations lang_code w = (Ret r, w') ∧
    (valid r = false ↔ errors r ≠ []) ∧
    (valid r = false → warnings r = [] ∧ missing_keys r = [] ∧ extra_keys r = []) ∧
    (warnings r = [] ↔ missing_keys r = []) ∧
    (∀ n d, KeysMissing n d ∈ warnings r →
            n = List.length (missing_keys r) ∧ d = default_language (_settings w)) ∧
    NoDup (missing_keys r) ∧ NoDup (extra_keys r) ∧
    (∀ k, k ∈ missing_keys r → k ∉ extra_keys r) ∧
    (lang_code = default_language (_settings w) →
       missing_keys r = [] ∧ extra_keys r = []).
Proof.
  unfold validate_translations, validate_body. unfold_monad.
  destruct (load_messages_frame lang_code true w) as [Hs _].
  destruct (load_messages lang_code true w) as [[t|e] w1]; cbn [fst snd] in *.
  2:{ eexists _, _. split; [reflexivity |]. simpl.
      split_and!; try done; try apply NoDup_nil_2.
      - intros n d H. inversion H.
      - intros k H. inversion H. }
  destruct t as [|kv t]; cbn [truthy].
  { eexists _, _. split; [reflexivity |]. simpl.
    split_and!; try done; try apply NoDup_nil_2.
    - intros n d H. inversion H.
    - intros k H. inversion H. }
  rewrite Hs. case_bool_decide as Hd.
  2:{ eexists _, _. split; [reflexivity |]. simpl.
      split_and!; try done; try apply NoDup_nil_2.
      - intros n d H. inversion H.
      - intros k H. inversion H. }
  destruct (load_messages (default_language (_settings w)) false w1) as [[t'|e'] w2];
    cbn [fst snd].
  2:{ eexists _, _. split; [reflexivity |]. simpl.
      split_and!; try done; try apply NoDup_nil_2.
      - intros n d H. inversion H.
      - intros k H. inversion H. }
  eexists _, _. split; [reflexivity |]. cbn [valid errors warnings missing_keys extra_keys].
  set (missing := elements (get_all_keys t' "" ∖ get_all_keys (kv :: t) "")).
  set (extra := elements (get_all_keys (kv :: t) "" ∖ get_all_keys t' "")).
  split_and!; try done.
  - destruct missing; split; try done.
  - intros n d. destruct missing as [|m ms] eqn:Hm; [intros H; inversion H |].
    intros H. apply list_elem_of_singleton in H. by injection H as -> ->.
  - apply NoDup_elements.
  - apply NoDup_elements.
  - intros k. subst missing extra. rewrite !elem_of_elements. set_solver.
Qed.

Lemma validation_always_reports_witness :
  let w := initial_world files_missing_key no_dirs frozen_clock in
  ∃ r, (validate_translations "de" w).1 = Ret r ∧
       KeysMissing 1 "en" ∈ warnings r ∧
       1%nat = List.length (missing_keys r) ∧ valid r = true.
Proof.
  intros w.
  destruct (validation_always_reports "de" w)
    as (r & w' & Hrun & Hvalid & _ & _ & Hcount & _).
  exists r. rewrite Hrun.
  assert (Hr : r = mk_validation true [] [KeysMissing 1 "en"] ["a.c"] []).
  { assert (H : (validate_translations "de" w).1
                = Ret (mk_validation true [] [KeysMissing 1 "en"] ["a.c"] []))
      by (vm_compute; reflexivity).
    rewrite Hrun in H. by injection H. }
  assert (Hin : KeysMissing 1 "en" ∈ warnings r) by (rewrite Hr; apply list_elem_of_here).
  split_and!; [done | exact Hin | exact (proj1 (Hcount 1%nat "en" Hin)) | by rewrite Hr].
Defined.

(** ** The validator: what is compared *)

(** X19: a language is validated as whatever its fallback chain
    resolves to.  When the first usable candidate of [lang_code] and the
    fallback languages is the default language, with a non-empty tree and
    no cache entry of its own, [validate_translations] reports a valid
    file with no missing and no extra key: this is what a language code
    without any file gets when the default language heads the chain. *)
Theorem language_without_file_validates_as_default (lang_code : string) (w : world)
    (pre post : list string) (mtime : Z) (data : tree) :
  let default := default_language (_settings w) in
  lang_code :: fallback_languages (_settings w) = (pre ++ default :: post)%list →
  (∀ k, k ∈ pre → unusable (source_of w k)) →
  usable (source_of w default) mtime data →
  data ≠ [] →
  default ∉ cached_langs w →
  (validate_translations lang_code w).1 = Ret (mk_validation true [] [] [] []).
Proof.
  intros default Hchain Hpre Huse Hne Hnot.
  unfold validate_translations, validate_body. unfold_monad.
  destruct (load_messages_frame lang_code true w) as [Hs Hf].
  destruct (load_messages_first_usable w lang_code true pre default post mtime data)
    as (Hret & _ & _ & Hlangs & _); try done; try (by left).
  { intros k Hk. split; [by apply Hpre | by left]. }
  destruct (load_messages lang_code true w) as [r w1]. cbn [fst snd] in *. subst r.
  destruct data as [|kv data]; [done |]. cbn [truthy]. rewrite Hs. fold default.
  case_bool_decide as Hd; [|done].
  destruct (load_messages_own_file w1 default false mtime (kv :: data)) as (Hret2 & _).
  { unfold source_of. by rewrite Hs, Hf. }
  { right. rewrite Hlangs. set_solver. }
  destruct (load_messages default false w1) as [r2 w2]. cbn [fst snd] in *. subst r2.
  cbn [fst]. rewrite difference_diag_L, elements_empty. done.
Qed.

Lemma language_without_file_validates_as_default_witness :
  let w := initial_world files_en no_dirs frozen_clock in
  src_exists (source_of w "xx") = Absent ∧
  (validate_translations "xx" w).1 = Ret (mk_validation true [] [] [] []).
Proof.
  intros w. split; [reflexivity |].
  apply (language_without_file_validates_as_default "xx" w ["xx"] ["de"] 1700000000
           sample_tree).
  - reflexivity.
  - intros k Hk. apply list_elem_of_singleton in Hk as ->. left; reflexivity.
  - split_and!; [reflexivity | reflexivity |].
    exists (VDict sample_tree). split; reflexivity.
  - discriminate.
  - apply not_elem_of_empty.
Defined.

(** X20: for two non-empty trees without an empty key at the top,
    [validate_translations] compares the sets of dot-joined full key
    paths: the missing keys are the paths of the default language that the
    target lacks, the extra keys are the paths of the target that the
    default language lacks, and there is one warning, counting the missing
    keys, exactly when some key is missing. *)
Theorem validation_compares_key_paths (lang_code : string) (w w1 w2 : world)
    (translations default_trans : tree) :
  load_messages lang_code true w = (Ret translations, w1) →
  translations ≠ [] →
  lang_code ≠ default_language (_settings w1) →
  load_messages (default_language (_settings w1)) false w1 = (Ret default_trans, w2) →
  (∀ k v, (k, v) ∈ translations → k ≠ "") →
  (∀ k v, (k, v) ∈ default_trans → k ≠ "") →
  ∃ r, validate_translations lang_code w = (Ret r, w2) ∧
       valid r = true ∧ errors r = [] ∧
       (∀ k, k ∈ missing_keys r ↔
             k ∈ flatten_paths default_trans ∧ k ∉ flatten_paths translations) ∧
       (∀ k, k ∈ extra_keys r ↔
             k ∈ flatten_paths translations ∧ k ∉ flatten_paths default_trans) ∧
       List.length (missing_keys r)
         = size (flatten_paths default_trans ∖ flatten_paths translations) ∧
       warnings r =
         if decide (flatten_paths default_trans ⊆ flatten_paths translations)
         then []
         else [KeysMissing (size (flatten_paths default_trans ∖ flatten_paths translations))
                 (default_language (_settings w1))].
Proof.
  intros Hload Hne Hlang Hdef Hk1 Hk2.
  unfold validate_translations, validate_body. unfold_monad. rewrite Hload.
  destruct translations as [|kv rest]; [done |].
  cbn [truthy]. rewrite bool_decide_true by done. rewrite Hdef.
  eexists. split; [reflexivity |]. cbn [valid errors warnings missing_keys extra_keys].
  rewrite !get_all_keys_flatten by done.
  set (D := flatten_paths default_trans). set (T := flatten_paths (kv :: rest)).
  split_and!; try done.
  - intros k. rewrite elem_of_elements. set_solver.
  - intros k. rewrite elem_of_elements. set_solver.
  - case_decide as Hsub.
    + assert (He : D ∖ T = ∅) by set_solver. by rewrite He, elements_empty.
    + assert (Hm : elements (D ∖ T) ≠ []).
      { intros Hm. apply Hsub. apply (elements_empty_iff (D ∖ T)) in Hm.
        intros x Hx. destruct (decide (x ∈ T)) as [? | Hn]; [done |].
        exfalso. apply (not_elem_of_empty (C := gset string) x).
        rewrite <- Hm. by apply elem_of_difference. }
      change (size (D ∖ T)) with (List.length (elements (D ∖ T))).
      by destruct (elements (D ∖ T)).
Qed.

Lemma validation_compares_key_paths_witness :
  let w := initial_world files_missing_key no_dirs frozen_clock in
  ∃ r, (validate_translations "de" w).1 = Ret r ∧
       (∀ k, k ∈ missing_keys r ↔
             k ∈ flatten_paths [("a", VDict [("b", VStr "1"); ("c", VStr "2")])] ∧
             k ∉ flatten_paths [("a", VDict [("b", VStr "1")])]).
Proof.
  intros w.
  set (w1 := (load_messages "de" true w).2).
  set (w2 := (load_messages "en" false w1).2).
  assert (H1 : load_messages "de" true w = (Ret [("a", VDict [("b", VStr "1")])], w1)).
  { assert (H : (load_messages "de" true w).1 = Ret [("a", VDict [("b", VStr "1")])])
      by (vm_compute; reflexivity).
    rewrite <- H. subst w1. apply surjective_pairing. }
  assert (Hs : default_language (_settings w1) = "en").
  { subst w1. by rewrite (proj1 (load_messages_frame "de" true w)). }
  assert (H2 : load_messages (default_language (_settings w1)) false w1
               = (Ret [("a", VDict [("b", VStr "1"); ("c", VStr "2")])], w2)).
  { rewrite Hs.
    assert (H : (load_messages "en" false w1).1
                = Ret [("a", VDict [("b", VStr "1"); ("c", VStr "2")])])
      by (vm_compute; reflexivity).
    rewrite <- H. subst w2. apply surjective_pairing. }
  destruct (validation_compares_key_paths "de" w w1 w2
              [("a", VDict [("b", VStr "1")])]
              [("a", VDict [("b", VStr "1"); ("c", VStr "2")])] H1)
    as (r & Hrun & _ & _ & Hmiss & _).
  - discriminate.
  - rewrite Hs. discriminate.
  - exact H2.
  - intros k v Hin. apply list_elem_of_singleton in Hin. injection Hin as -> _. discriminate.
  - intros k v Hin. apply list_elem_of_singleton in Hin. injection Hin as -> _. discriminate.
  - exists r. rewrite Hrun. split; [reflexivity | exact Hmiss].
Defined.

(** ** Maintenance calls *)

Lemma clear_cache_run (key : option string) (w : world) :
  ∃ c1, clear_cache key w =
          (Ret tt,
           with_file_watchers
             (match key with
              | Some k => if str_truthy k then delete k (_file_watchers w) else ∅
              | None => ∅
              end)
             (with_cache (Some c1) w)) ∧
        c1 = TranslationCache.clear key
               (default (TranslationCache.init (cache_ttl_minutes (_settings w))) (_cache w)).
Proof.
  eexists. split; [|reflexivity].
  unfold clear_cache, cache_clear. unfold_monad. rewrite ensure_cache_run. simpl.
  by destruct w as [s [c|] fw f d k n io].
Qed.

(** X21: clearing makes the next load read the file again.  After
    [clear_cache] for a language, or for all languages, [load_messages]
    for that language probes, inspects and reads its file, returns the
    tree the file holds now, and caches it, no matter what was cached or
    recorded before. *)
Theorem clearing_forces_a_reload (key : option string) (lang_code : string) (w : world)
    (mtime : Z) (data : tree) :
  key = None ∨ key = Some lang_code →
  usable (source_of w lang_code) mtime data →
  let w1 := (clear_cache key w).2 in
  let w2 := (load_messages lang_code false w1).2 in
  (clear_cache key w).1 = Ret tt ∧
  (load_messages lang_code false w1).1 = Ret data ∧
  io_log w2 = (io_log w ++ [EvExists (file_path (_settings w) lang_code);
                            EvStat (file_path (_settings w) lang_code);
                            EvRead (file_path (_settings w) lang_code)])%list ∧
  ∃ stamp, holds_entry w2 lang_code data stamp.
Proof.
  intros Hkey Huse w1 w2. subst w2 w1.
  destruct (clear_cache_run key w) as (c1 & -> & Hc1). cbn [fst snd].
  set (w1 := with_file_watchers _ _).
  assert (Hnot : lang_code ∉ cached_langs w1).
  { unfold cached_langs. subst w1 c1. simpl. unfold TranslationCache.clear.
    destruct Hkey as [-> | ->]; [simpl; by rewrite dom_empty_L |].
    destruct (str_truthy lang_code); simpl;
      rewrite ?dom_delete_L, ?dom_empty_L; set_solver. }
  destruct (load_messages_own_file w1 lang_code false mtime data Huse (or_intror Hnot))
    as (Hret & _ & _ & Hentry & _ & _ & Hio).
  by split_and!.
Qed.

Lemma clearing_forces_a_reload_witness :
  let w := with_environment files_de no_dirs frozen_clock
             (load_messages "de" false (initial_world no_files no_dirs frozen_clock)).2 in
  (load_messages "de" false w).1 = Ret [] ∧
  usable (source_of w "de") 1700000000 sample_tree ∧
  (load_messages "de" false (clear_cache (Some "de") w).2).1 = Ret sample_tree.
Proof.
  intros w.
  assert (Huse : usable (source_of w "de") 1700000000 sample_tree).
  { split_and!; [reflexivity | reflexivity |].
    exists (VDict sample_tree). split; reflexivity. }
  split_and!; [vm_compute; reflexivity | exact Huse |].
  exact (proj1 (proj2 (clearing_forces_a_reload (Some "de") "de" w 1700000000 sample_tree
                         (or_intror eq_refl) Huse))).
Defined.

(** X22: [get_cache_stats] always returns.  It creates the cache when
    there is none, touches no file, and lists each language that has a
    cache entry once, expired or not, with their number. *)
Theorem cache_stats_list_the_cached_languages (w : world) :
  ∃ s w',
    get_cache_stats w = (Ret s, w') ∧
    (∀ k, k ∈ TranslationCache.languages s ↔ k ∈ cached_langs w) ∧
    NoDup (TranslationCache.languages s) ∧
    TranslationCache.entries s = size (cached_langs w) ∧
    is_Some (_cache w') ∧
    cached_langs w' = cached_langs w ∧
    io_log w' = io_log w ∧
    (is_Some (_cache w) → w' = w).
Proof.
  set (c := default (TranslationCache.init (cache_ttl_minutes (_settings w))) (_cache w)).
  assert (Hdom : cached_langs w = dom (TranslationCache._cache c)).
  { unfold cached_langs. subst c. destruct (_cache w); simpl; [done |].
    by rewrite dom_empty_L. }
  exists (TranslationCache.get_stats c), (with_cache (Some c) w). split_and!.
  - unfold get_cache_stats, cache_stats. unfold_monad. by rewrite ensure_cache_run.
  - intros k. by rewrite languages_spec, Hdom.
  - apply NoDup_fst_map_to_list.
  - rewrite Hdom. simpl. by rewrite size_dom.
  - done.
  - by rewrite Hdom.
  - done.
  - intros [c0 Hc0]. subst c. destruct w; simpl in *. by subst.
Qed.

Lemma cache_stats_list_the_cached_languages_witness :
  let w := (load_messages "es" false (initial_world files_en no_dirs frozen_clock)).2 in
  ∃ s, (get_cache_stats w).1 = Ret s ∧ "es" ∈ TranslationCache.languages s ∧
       "en" ∉ TranslationCache.languages s.
Proof.
  intros w.
  destruct (cache_stats_list_the_cached_languages w) as (s & w' & Hrun & Hin & _).
  exists s. rewrite Hrun. split; [reflexivity |]. rewrite !Hin.
  unfold cached_langs. split.
  - apply elem_of_dom. eexists. vm_compute. reflexivity.
  - apply not_elem_of_dom. vm_compute. reflexivity.
Defined.



(** X24: changing the path, the fallback languages or the default
    language without a [cache_ttl] invalidates nothing.  A tree that is
    cached within its TTL window is still returned by [load_messages]
    after such a call of [settings], with no file-system access, although
    it was loaded under the old settings. *)
Theorem reconfiguring_keeps_cached_trees (path : option string)
    (fallback_langs : option (list string)) (default_lang : option string)
    (lang_code : string) (v : tree) (w : world) :
  fresh_entry w lang_code v →
  let w1 := (settings path fallback_langs default_lang None w).2 in
  _settings w1 = configure path fallback_langs default_lang None (_settings w) ∧
  load_messages lang_code false w1 = (Ret v, with_tick w1) ∧
  io_log (with_tick w1) = io_log w.
Proof.
  intros Hfresh w1.
  assert (Hfresh1 : fresh_entry w1 lang_code v).
  { destruct Hfresh as (c & stamp & Hc & Hv & Hs & Hwin).
    exists c, stamp. subst w1. destruct w as [s [c0|] fw f d k n io]; simpl in *; [|done].
    by split_and!. }
  split_and!.
  - subst w1. by destruct w as [s [c0|] fw f d k n io].
  - by apply load_messages_fresh.
  - subst w1. by destruct w as [s [c0|] fw f d k n io].
Qed.

Lemma reconfiguring_keeps_cached_trees_witness :
  let w := (load_messages "en" false (initial_world files_en no_dirs frozen_clock)).2 in
  let w1 := (settings (Some "elsewhere") None None None w).2 in
  fresh_entry w "en" sample_tree ∧
  src_exists (source_of w1 "en") = Absent ∧
  load_messages "en" false w1 = (Ret sample_tree, with_tick w1).
Proof.
  intros w w1.
  assert (Hfresh : fresh_entry w "en" sample_tree).
  { eexists _, _. split_and!; [vm_compute; reflexivity ..| vm_compute; discriminate]. }
  split_and!; [exact Hfresh | reflexivity |].
  exact (proj1 (proj2 (reconfiguring_keeps_cached_trees (Some "elsewhere") None None "en"
                         sample_tree w Hfresh))).
Defined.

(** ** Logging *)

Section LogLevels.

Variable colorama : option Colorama.

(** X25: the log level is a threshold.  With logging disabled nothing
    is emitted.  With logging enabled an error is always emitted, whatever
    the level; a warning is emitted when the level is DEBUG, INFO or
    WARNING; an info or success message when it is DEBUG or INFO; a debug
    message when it is DEBUG.  So whatever passes a lower threshold passes
    the higher ones, and any other level, ERROR included, lets errors
    through only.  Each message goes to the logger method of its kind,
    success messages to [info]. *)
Theorem log_level_is_a_threshold (s : LogSettings) (message : string) :
  let debug := _log_debug colorama s message in
  let info := _log_info colorama s message in
  let success := _log_success colorama s message in
  let warning := _log_warning colorama s message in
  let error := _log_error colorama s message in
  (logging_enabled s = false →
     debug = [] ∧ info = [] ∧ success = [] ∧ warning = [] ∧ error = []) ∧
  (logging_enabled s = true →
     (∃ line, error = [(LogError, line)]) ∧
     ((∃ line, warning = [(LogWarning, line)]) ↔
        log_level s = "DEBUG" ∨ log_level s = "INFO" ∨ log_level s = "WARNING") ∧
     ((∃ line, info = [(LogInfo, line)]) ↔ log_level s = "DEBUG" ∨ log_level s = "INFO") ∧
     ((∃ line, success = [(LogInfo, line)]) ↔ log_level s = "DEBUG" ∨ log_level s = "INFO") ∧
     ((∃ line, debug = [(LogDebug, line)]) ↔ log_level s = "DEBUG")) ∧
  (debug ≠ [] → info ≠ []) ∧
  (info ≠ [] → warning ≠ []) ∧
  (warning ≠ [] → error ≠ []) ∧
  (log_level s ≠ "DEBUG" → log_level s ≠ "INFO" → log_level s ≠ "WARNING" →
     debug = [] ∧ info = [] ∧ success = [] ∧ warning = []).
Proof.
  destruct s as [enabled colored level configured].
  unfold _log_debug, _log_info, _log_success, _log_warning, _log_error, _log.
  cbn [logging_enabled colored_logging log_level existsb orb].
  destruct (String.eqb_spec level "DEBUG") as [-> | Hd];
    [|destruct (String.eqb_spec level "INFO") as [-> | Hi];
      [|destruct (String.eqb_spec level "WARNING") as [-> | Hw]]];
    destruct enabled; cbn -[String.append];
    split_and!; try done; try (intros _); try (split_and!);
    try (by eexists);
    try (split; [intros [? ?]; try done; auto |
                 intros H; repeat (destruct H as [H | H]; try done); try done; by eexists]).
Qed.

(** X26: without colors every emitted line is the plain prefix, a space
    and the message.  This is so when colorama could not be imported,
    whatever the switch [colored_logging] says, and when the switch is
    off; and [configure] turns the switch off in both cases. *)
Theorem lines_without_colors_are_plain (upper : string → string) (s : LogSettings)
    (message : string) (m : log_method) (line : string) :
  colorama = None ∨ colored_logging s = false →
  (m, line) ∈ (_log_debug colorama s message ++ _log_info colorama s message ++
               _log_success colorama s message ++ _log_warning colorama s message ++
               _log_error colorama s message)%list →
  line = "[TRANSLATION] " +:+ message ∧
  ∀ logging colored level,
    colorama = None ∨ colored = false →
    colored_logging (configure_logging colorama upper logging colored level s) = false.
Proof.
  intros Hplain Hin. split.
  - destruct s as [enabled colored level configured].
    revert Hin.
    unfold _log_debug, _log_info, _log_success, _log_warning, _log_error, _log.
    cbn [logging_enabled colored_logging log_level] in *.
    assert (Hprefix : ∀ color,
              (if colored
               then (match colorama with Some _ => color | None => "" end)
                      +:+ "[TRANSLATION]" +:+ Style_RESET_ALL colorama
               else "[TRANSLATION]") = "[TRANSLATION]").
    { intros color. destruct Hplain as [-> | ->]; [by destruct colored | done]. }
    assert (Hline : ∀ (lvl : log_method) (color : string),
              (m, line) ∈ (if enabled
                           then [(lvl,
                                  (if colored
                                   then color +:+ "[TRANSLATION]" +:+ Style_RESET_ALL colorama
                                   else "[TRANSLATION]") +:+ " " +:+ message)]
                           else []) →
              (colorama = None → color = "") →
              line = "[TRANSLATION] " +:+ message).
    { intros lvl color H Hc. destruct enabled; [|inversion H].
      apply list_elem_of_singleton in H. injection H as _ ->.
      destruct Hplain as [Hn | ->]; [|done].
      rewrite (Hc Hn). subst colorama. by destruct colored. }
    intros Hin. rewrite !elem_of_app in Hin.
    destruct Hin as [H | [H | [H | [H | H]]]].
    + destruct (String.eqb level "DEBUG"); [|inversion H].
      apply (Hline _ _ H). by intros ->.
    + destruct (existsb _ _); [|inversion H].
      apply (Hline _ _ H). by intros ->.
    + destruct (existsb _ _); [|inversion H].
      apply (Hline _ _ H). intros ->. by destruct colored.
    + destruct (existsb _ _); [|inversion H].
      apply (Hline _ _ H). by intros ->.
    + apply (Hline _ _ H). by intros ->.
  - intros logging colored level [-> | ->]; simpl; [apply andb_false_r | done].
Qed.

End LogLevels.

Lemma log_level_is_a_threshold_witness :
  let s := mk_log_settings true false "ERROR" true in
  logging_enabled s = true ∧
  _log_warning None s "No translation file found" = [] ∧
  ∃ line, _log_error None s "YAML parsing error" = [(LogError, line)].
Proof.
  intros s.
  assert (He : logging_enabled s = true) by reflexivity.
  split_and!; [exact He | reflexivity |].
  exact (proj1 (proj1 (proj2 (log_level_is_a_threshold None s "YAML parsing error")) He)).
Defined.

Lemma lines_without_colors_are_plain_witness :
  let s := default_log_settings in
  (LogInfo, "[TRANSLATION] en.yaml has loaded")
    ∈ (_log_debug None s "en.yaml has loaded" ++ _log_info None s "en.yaml has loaded" ++
       _log_success None s "en.yaml has loaded" ++ _log_warning None s "en.yaml has loaded" ++
       _log_error None s "en.yaml has loaded")%list ∧
  "[TRANSLATION] en.yaml has loaded" = "[TRANSLATION] " +:+ "en.yaml has loaded".
Proof.
  intros s.
  assert (Hin : (LogInfo, "[TRANSLATION] en.yaml has loaded")
                ∈ (_log_debug None s "en.yaml has loaded" ++
                   _log_info None s "en.yaml has loaded" ++
                   _log_success None s "en.yaml has loaded" ++
                   _log_warning None s "en.yaml has loaded" ++
                   _log_error None s "en.yaml has loaded")%list)
    by (vm_compute; apply list_elem_of_here).
  split; [exact Hin |].
  exact (proj1 (lines_without_colors_are_plain None (λ x, x) s "en.yaml has loaded" LogInfo
                  "[TRANSLATION] en.yaml has loaded" (or_introl eq_refl) Hin)).
Defined.

(** * Properties of the update checker *)

Lemma tuple_lt_spec (a b : Z * Z * Z) :
  UpdateChecker.tuple_lt a b = true ↔
  a.1.1 < b.1.1 ∨ (a.1.1 = b.1.1 ∧ (a.1.2 < b.1.2 ∨ (a.1.2 = b.1.2 ∧ a.2 < b.2))).
Proof.
  destruct a as [[a1 a2] a3], b as [[b1 b2] b3]. unfold UpdateChecker.tuple_lt. simpl.
  rewrite !orb_true_iff, !andb_true_iff, !orb_true_iff, !andb_true_iff.
  rewrite !Z.ltb_lt, !Z.eqb_eq. tauto.
Qed.

Lemma tuple_eqb_spec (a b : Z * Z * Z) : UpdateChecker.tuple_eqb a b = true ↔ a = b.
Proof.
  destruct a as [[a1 a2] a3], b as [[b1 b2] b3]. unfold UpdateChecker.tuple_eqb.
  rewrite !andb_true_iff, !Z.eqb_eq. split; [intros [[-> ->] ->]; done | by intros [= -> -> ->]].
Qed.

Lemma release_type_eqb_spec (a b : UpdateChecker.ReleaseType) :
  UpdateChecker.release_type_eqb a b = true ↔ a = b.
Proof. destruct a, b; simpl; split; congruence. Qed.

Lemma versions_order_cases (a b : UpdateChecker.VersionInfo) :
  UpdateChecker.lt a b = true ∧ UpdateChecker.gt a b = false ∧
    UpdateChecker.core a ≠ UpdateChecker.core b ∨
  UpdateChecker.lt a b = false ∧ UpdateChecker.gt a b = true ∧
    UpdateChecker.core a ≠ UpdateChecker.core b ∨
  UpdateChecker.lt a b = false ∧ UpdateChecker.gt a b = false ∧
    UpdateChecker.core a = UpdateChecker.core b.
Proof.
  unfold UpdateChecker.gt, UpdateChecker.lt.
  destruct (UpdateChecker.core a) as [[a1 a2] a3], (UpdateChecker.core b) as [[b1 b2] b3].
  destruct (UpdateChecker.tuple_lt (a1, a2, a3) (b1, b2, b3)) eqn:H1;
    destruct (UpdateChecker.tuple_lt (b1, b2, b3) (a1, a2, a3)) eqn:H2.
  - apply tuple_lt_spec in H1, H2. simpl in *. lia.
  - left. split_and!; try done. apply tuple_lt_spec in H1. simpl in H1.
    intros [= -> -> ->]. lia.
  - right; left. split_and!; try done. apply tuple_lt_spec in H2. simpl in H2.
    intros [= -> -> ->]. lia.
  - right; right. split_and!; try done.
    apply not_true_iff_false in H1, H2. rewrite tuple_lt_spec in H1, H2. simpl in *.
    assert (a1 = b1) by lia. assert (a2 = b2) by lia. assert (a3 = b3) by lia.
    by subst.
Qed.

(** X27: versions are ordered by their three numbers alone.  [<] and
    [>] are converse, irreflexive and transitive, and of two versions
    exactly one is smaller or they have the same numbers; the release type
    never decides an order.  [==] asks for the same numbers and the same
    release type, so two versions with the same numbers and different
    release types are neither equal, nor smaller, nor greater. *)
Theorem versions_are_ordered_by_core (a b c : UpdateChecker.VersionInfo) :
  UpdateChecker.gt a b = UpdateChecker.lt b a ∧
  UpdateChecker.lt a a = false ∧
  (UpdateChecker.lt a b = true → UpdateChecker.lt b c = true → UpdateChecker.lt a c = true) ∧
  (UpdateChecker.lt a b = true ∧ UpdateChecker.gt a b = false ∧
     UpdateChecker.core a ≠ UpdateChecker.core b ∨
   UpdateChecker.lt a b = false ∧ UpdateChecker.gt a b = true ∧
     UpdateChecker.core a ≠ UpdateChecker.core b ∨
   UpdateChecker.lt a b = false ∧ UpdateChecker.gt a b = false ∧
     UpdateChecker.core a = UpdateChecker.core b) ∧
  (UpdateChecker.eq a b = true ↔
     UpdateChecker.core a = UpdateChecker.core b ∧
     UpdateChecker.release_type a = UpdateChecker.release_type b) ∧
  (UpdateChecker.core a = UpdateChecker.core b →
   UpdateChecker.release_type a ≠ UpdateChecker.release_type b →
   UpdateChecker.eq a b = false ∧ UpdateChecker.lt a b = false ∧ UpdateChecker.gt a b = false).
Proof.
  unfold UpdateChecker.gt, UpdateChecker.lt, UpdateChecker.eq.
  destruct a as [a1 a2 a3 ta ra], b as [b1 b2 b3 tb rb], c as [c1 c2 c3 tc rc].
  unfold UpdateChecker.core. cbn [UpdateChecker.major UpdateChecker.minor UpdateChecker.patch
                                  UpdateChecker.release_type].
  split_and!.
  - done.
  - apply not_true_is_false. rewrite tuple_lt_spec. simpl. lia.
  - rewrite !tuple_lt_spec. simpl. lia.
  - apply (versions_order_cases (UpdateChecker.mk_version a1 a2 a3 ta ra)
             (UpdateChecker.mk_version b1 b2 b3 tb rb)).
  - by rewrite andb_true_iff, tuple_eqb_spec, release_type_eqb_spec.
  - intros Hc Ht. split_and!.
    + apply not_true_is_false. rewrite andb_true_iff, release_type_eqb_spec. tauto.
    + apply not_true_is_false. rewrite tuple_lt_spec. injection Hc as -> -> ->. simpl. lia.
    + apply not_true_is_false. rewrite tuple_lt_spec. injection Hc as -> -> ->. simpl. lia.
Qed.

Lemma versions_are_ordered_by_core_witness :
  let alpha := UpdateChecker.mk_version 1 7 2 UpdateChecker.ALPHA "1.7.2-alpha" in
  let stable := UpdateChecker.mk_version 1 7 2 UpdateChecker.STABLE "1.7.2" in
  UpdateChecker.core alpha = UpdateChecker.core stable ∧
  UpdateChecker.release_type alpha ≠ UpdateChecker.release_type stable ∧
  UpdateChecker.eq alpha stable = false ∧ UpdateChecker.lt alpha stable = false.
Proof.
  intros alpha stable.
  assert (Hc : UpdateChecker.core alpha = UpdateChecker.core stable) by reflexivity.
  assert (Ht : UpdateChecker.release_type alpha ≠ UpdateChecker.release_type stable)
    by discriminate.
  destruct (versions_are_ordered_by_core alpha stable stable) as (_ & _ & _ & _ & _ & H).
  destruct (H Hc Ht) as (He & Hl & _).
  by split_and!.
Defined.

Section Updates.

Variable within_interval : Z → Z → Z → bool.
Variable fetch_release_notes : string → option string.

(** X28: what a successful check reports.  An update is available
    exactly when the numbers of the running version are smaller than those
    of the latest one, and the release notes are fetched then and only
    then; a development build is reported exactly when they are greater;
    with equal numbers a pre-release is reported when the running version
    is alpha, beta or dev and the latest is stable.  At most one of the
    three flags is set, and with equal numbers no update is ever
    available, whatever the release types. *)
Theorem update_is_decided_by_the_numbers (github_repo : string)
    (self : UpdateChecker.VersionChecker) (latest : UpdateChecker.VersionInfo) :
  let current := UpdateChecker.current_version self in
  ∃ update_available prerelease is_dev_build release_notes,
    UpdateChecker.compare_versions fetch_release_notes github_repo self latest
      = UpdateChecker.CheckDone update_available (UpdateChecker.raw current)
          (UpdateChecker.raw latest) prerelease is_dev_build release_notes github_repo ∧
    update_available = UpdateChecker.lt current latest ∧
    is_dev_build = UpdateChecker.gt current latest ∧
    (prerelease = true ↔
       UpdateChecker.core current = UpdateChecker.core latest ∧
       UpdateChecker.release_type current ∈
         [UpdateChecker.ALPHA; UpdateChecker.BETA; UpdateChecker.DEV] ∧
       UpdateChecker.release_type latest = UpdateChecker.STABLE) ∧
    release_notes =
      (if update_available then fetch_release_notes (UpdateChecker.raw latest) else None) ∧
    (update_available && is_dev_build = false) ∧
    (update_available && prerelease = false) ∧
    (is_dev_build && prerelease = false) ∧
    (UpdateChecker.core current = UpdateChecker.core latest → update_available = false).
Proof.
  intros current. unfold UpdateChecker.compare_versions. fold current.
  destruct (versions_order_cases current latest)
    as [(Hl & Hg & Hc) | [(Hl & Hg & Hc) | (Hl & Hg & Hc)]];
    rewrite Hg, ?Hl.
  - eexists _, _, _, _. split; [reflexivity |]. split_and!; try done.
    split; [done | by intros [? _]].
  - eexists _, _, _, _. split; [reflexivity |]. split_and!; try done.
    split; [done | by intros [? _]].
  - assert (Hp : UpdateChecker.is_prerelease current && UpdateChecker.is_stable latest = true ↔
              UpdateChecker.release_type current ∈
                [UpdateChecker.ALPHA; UpdateChecker.BETA; UpdateChecker.DEV] ∧
              UpdateChecker.release_type latest = UpdateChecker.STABLE).
    { unfold UpdateChecker.is_prerelease, UpdateChecker.is_stable.
      rewrite andb_true_iff, release_type_eqb_spec.
      destruct (UpdateChecker.release_type current); simpl;
        rewrite ?elem_of_cons, elem_of_nil; intuition congruence. }
    destruct (UpdateChecker.is_prerelease current && UpdateChecker.is_stable latest);
      (eexists _, _, _, _; split; [reflexivity |]); split_and!; try done.
    + split; [intros _; split; [done | by apply Hp] | done].
    + split; [done |]. intros [_ H]. by apply Hp.
Qed.

Lemma check_for_updates_fetches (github_repo : string) (check_interval : Z) (force : bool)
    (now stored_at : Z) (latest : option UpdateChecker.VersionInfo)
    (self : UpdateChecker.VersionChecker) :
  force = true ∨ UpdateChecker._cached_result self = None →
  UpdateChecker.check_for_updates within_interval fetch_release_notes github_repo
    check_interval force now stored_at latest self =
    match latest with
    | None =>
        (UpdateChecker.CheckFailed (UpdateChecker.raw (UpdateChecker.current_version self)),
         self)
    | Some l =>
        (UpdateChecker.compare_versions fetch_release_notes github_repo self l,
         UpdateChecker.mk_checker (UpdateChecker.current_version self) (Some stored_at)
           (Some (UpdateChecker.compare_versions fetch_release_notes github_repo self l)))
    end.
Proof.
  unfold UpdateChecker.check_for_updates. intros [-> | Hc]; [done |].
  rewrite Hc. by destruct force.
Qed.

(** X29: what [check_for_updates] keeps.  A failed fetch returns the
    short result and leaves the checker as it was, so failures are never
    cached.  A successful fetch caches the result it returns, with the
    time of the check.  A later call that is not forced returns the cached
    result as long as the age test holds, whatever the remote version is
    by then, and changes nothing; a forced call, or one whose age test
    fails, decides anew. *)
Theorem cached_result_is_reused_while_recent (github_repo : string) (check_interval : Z)
    (now stored_at : Z) (self : UpdateChecker.VersionChecker) :
  let check := UpdateChecker.check_for_updates within_interval fetch_release_notes
                 github_repo check_interval in
  (∀ force, force = true ∨ UpdateChecker._cached_result self = None →
     check force now stored_at None self
       = (UpdateChecker.CheckFailed (UpdateChecker.raw (UpdateChecker.current_version self)),
          self)) ∧
  (∀ force latest, force = true ∨ UpdateChecker._cached_result self = None →
     let result := UpdateChecker.compare_versions fetch_release_notes github_repo self latest in
     let self' := (check force now stored_at (Some latest) self).2 in
     (check force now stored_at (Some latest) self).1 = result ∧
     UpdateChecker._cached_result self' = Some result ∧
     UpdateChecker._last_check self' = Some stored_at ∧
     UpdateChecker.current_version self' = UpdateChecker.current_version self ∧
     ∀ now' stored_at' latest',
       within_interval now' stored_at check_interval = true →
       check false now' stored_at' latest' self' = (result, self')) ∧
  (∀ cached last_check latest,
     UpdateChecker._cached_result self = Some cached →
     UpdateChecker._last_check self = Some last_check →
     within_interval now last_check check_interval = false →
     check false now stored_at latest self = check true now stored_at latest self).
Proof.
  intros check. subst check. split_and!.
  - intros force Hmiss. by rewrite check_for_updates_fetches.
  - intros force latest Hmiss result self'. subst self'.
    rewrite check_for_updates_fetches by done. fold result. cbn [fst snd].
    split_and!; try done.
    intros now' stored_at' latest' Hrecent.
    unfold UpdateChecker.check_for_updates. simpl. by rewrite Hrecent.
  - intros cached last_check latest Hc Hl Hold.
    unfold UpdateChecker.check_for_updates. by rewrite Hc, Hl, Hold.
Qed.

End Updates.

Lemma update_is_decided_by_the_numbers_witness :
  let current := UpdateChecker.mk_version 1 7 2 UpdateChecker.ALPHA "1.7.2-alpha" in
  let latest := UpdateChecker.mk_version 1 7 2 UpdateChecker.STABLE "1.7.2" in
  let self := UpdateChecker.mk_checker current None None in
  UpdateChecker.core current = UpdateChecker.core latest ∧
  UpdateChecker.compare_versions (λ _, None) "repo" self latest
    = UpdateChecker.CheckDone false "1.7.2-alpha" "1.7.2" true false None "repo".
Proof.
  intros current latest self.
  assert (Hc : UpdateChecker.core current = UpdateChecker.core latest) by reflexivity.
  split; [exact Hc |].
  destruct (update_is_decided_by_the_numbers (λ _, None) "repo" self latest)
    as (u & p & d & n & Hrun & _).
  rewrite Hrun. vm_compute in Hrun. by injection Hrun as <- <- <- <-.
Defined.

Lemma cached_result_is_reused_while_recent_witness :
  let within (now last interval : Z) := now - last <? interval * 3600000000 in
  let current := UpdateChecker.mk_version 1 7 2 UpdateChecker.STABLE "1.7.2" in
  let v1 := UpdateChecker.mk_version 1 8 0 UpdateChecker.STABLE "1.8.0" in
  let v2 := UpdateChecker.mk_version 2 0 0 UpdateChecker.STABLE "2.0.0" in
  let self := UpdateChecker.mk_checker current None None in
  let check := UpdateChecker.check_for_updates within (λ _, None) "repo" 24 in
  let self' := (check false 0 5 (Some v1) self).2 in
  within 1000 5 24 = true ∧
  check false 1000 1001 (Some v2) self'
    = (UpdateChecker.CheckDone true "1.7.2" "1.8.0" false false None "repo", self').
Proof.
  intros within current v1 v2 self check self'.
  assert (Hr : within 1000 5 24 = true) by reflexivity.
  split; [exact Hr |].
  destruct (cached_result_is_reused_while_recent within (λ _, None) "repo" 24 0 5 self)
    as (_ & H & _).
  destruct (H false v1 (or_intror eq_refl)) as (_ & _ & _ & _ & Hagain).
  exact (Hagain 1000 1001 (Some v2) Hr).
Defined.
